(* ===================================================================== *)
(*  cashu-ts : src/CashuWallet.ts                                         *)
(*                                                                       *)
(*  A shallow embedding of the CashuWallet class and the properties of   *)
(*  its output planning, send, receive, melt and restore operations.     *)
(*                                                                       *)
(*  Conventions                                                          *)
(*  - Amounts, counts and derivation counters are TypeScript numbers     *)
(*    that the data model keeps unsigned; they are N here.  The two      *)
(*    subtractions of the class (splitReceive, createSplitPayload) are   *)
(*    only reached with a subtrahend that is not larger.                 *)
(*  - Blinding factors are bigint, Z here.                               *)
(*  - async methods become computations of the monad M below: a state    *)
(*    (the wallet object, the entropy source, the requests sent to the   *)
(*    mint so far) is threaded and a thrown Error ends the computation.  *)
(*  - The collaborators that live outside CashuWallet.ts (the curve, the *)
(*    BIP-32 derivation, the entropy source, the mint transport) are     *)
(*    interfaces: type classes for the libraries, a record of response   *)
(*    functions for the mint.                                            *)
(* ===================================================================== *)

From stdpp Require Import base numbers list gmap strings.
From Stdlib Require Import ZArith NArith List String Ascii Strings.Byte Lia.
Import ListNotations.

Local Open Scope N_scope.
Local Open Scope list_scope.

(* --------------------------------------------------------------------- *)
(* Data model (src/model/types)                                          *)
(* --------------------------------------------------------------------- *)

Definition bytes := list byte.

Record Proof := mkProof {
  proof_id : string;
  proof_amount : N;
  proof_secret : string;
  proof_C : string
}.

Record SerializedBlindedMessage := mkBlindedMessage {
  bm_amount : N;
  bm_B_ : string;
  bm_id : string
}.

Record SerializedBlindedSignature := mkBlindedSignature {
  sig_id : string;
  sig_amount : N;
  sig_C_ : string
}.

Record MintKeys := mkMintKeys {
  keys_id : string;
  keys_keys : gmap N string
}.

Record AmountPreference := mkPreference {
  pref_amount : N;
  pref_count : N
}.

Record TokenEntry := mkTokenEntry {
  entry_mint : string;
  entry_proofs : list Proof
}.

Record Token := mkToken {
  token : list TokenEntry;
  memo : option string
}.

Record ReceiveResponse := mkReceiveResponse {
  rr_token : Token;
  rr_tokensWithErrors : option Token
}.

Record ReceiveTokenEntryResponse := mkReceiveTokenEntryResponse {
  rte_proofs : list Proof;
  rte_proofsWithError : option (list Proof)
}.

Record SendResponse := mkSendResponse {
  returnChange : list Proof;
  send_proofs : list Proof
}.

Record SplitPayload := mkSplitPayload {
  split_inputs : list Proof;
  split_outputs : list SerializedBlindedMessage
}.

Record PostMintPayload := mkPostMintPayload {
  mint_outputs : list SerializedBlindedMessage;
  mint_quote : string
}.

Record MeltQuoteResponse := mkMeltQuote {
  quote : string;
  quote_amount : N;
  fee_reserve : N
}.

Record MeltPayload := mkMeltPayload {
  melt_quote : string;
  melt_inputs : list Proof;
  melt_outputs : list SerializedBlindedMessage
}.

(* The answer of the mint to a melt: every field is optional. *)
Record MeltResponse := mkMeltResponse {
  paid : option bool;
  payment_preimage : option string;
  change : option (list SerializedBlindedSignature)
}.

Record MeltTokensResponse := mkMeltTokensResponse {
  isPaid : bool;
  preimage : option string;
  melt_change : list Proof
}.

Record PostRestoreResponse := mkRestoreResponse {
  restore_outputs : list SerializedBlindedMessage;
  restore_promises : list SerializedBlindedSignature
}.

(* BlindedMessageData & { amounts } *)
Record BlindedTransaction := mkBlindedTransaction {
  blindedMessages : list SerializedBlindedMessage;
  secrets : list bytes;
  rs : list Z;
  amounts : list N
}.

(* --------------------------------------------------------------------- *)
(* Errors                                                                *)
(* --------------------------------------------------------------------- *)

Record MintFailure := mkMintFailure { code : Z; detail : string }.

(* The four `throw new Error(..)` of CashuWallet.ts come first; the rest
   are the errors its collaborators raise. *)
Inductive Error :=
  | InvalidMnemonic          (* 'Tried to instantiate with mnemonic, but mnemonic was invalid' *)
  | NotEnoughFunds           (* 'Not enough funds available' *)
  | RestoreWithoutSeed       (* 'CashuWallet must be initialized with mnemonic to use restore' *)
  | NoSeed                   (* 'Cannot create deterministic messages without seed. ...' *)
  | InvalidPreference
  | UnknownDenomination
  | InvalidPoint
  | LengthMismatch
  | MalformedToken
  | MintError (f : MintFailure).

(* Both messages tell the caller that the wallet has no seed. *)
Definition is_no_seed_error (e : Error) : bool :=
  match e with
  | NoSeed | RestoreWithoutSeed => true
  | _ => false
  end.

(* --------------------------------------------------------------------- *)
(* Collaborators                                                         *)
(* --------------------------------------------------------------------- *)

(* secp256k1 as DHKE.ts uses it. *)
Class Curve := {
  Point : Type;
  hashToCurve : bytes -> Point;
  G_mul : Z -> Point;                 (* r * G *)
  point_add : Point -> Point -> Point;
  point_sub : Point -> Point -> Point;
  point_mul : Z -> Point -> Point;
  toHex : Point -> string;
  pointFromHex : string -> option Point
}.

(* secrets.ts, @scure/bip39 and the bytesToNumber of utils.ts *)
Class Derivation := {
  deriveSecret : bytes -> string -> N -> bytes;
  deriveBlindingFactor : bytes -> string -> N -> bytes;
  bytesToNumber : bytes -> Z;
  validateMnemonic : string -> bool;
  deriveSeedFromMnemonic : string -> bytes
}.

(* getDecodedToken and cleanToken of utils.ts *)
Class TokenFormat := {
  getDecodedToken : string -> option Token;   (* None: the string does not decode *)
  cleanToken : Token -> Token
}.

(* randomBytes of @noble/hashes and the scalar sampling of DHKE.ts *)
Class Entropy := {
  Rng : Type;
  randomBytes : N -> Rng -> bytes * Rng;
  randomScalar : Rng -> Z * Rng
}.

(* Requests sent to the mint, in the order they were sent.  The class
   reaches the split endpoint through the instance method (send) and
   through the static method with the url of a token entry (receive). *)
Inductive MintCall :=
  | CallGetKeys (keysetId : option string) (mintUrl : option string)
  | CallSplit (payload : SplitPayload)
  | CallStaticSplit (mintUrl : string) (payload : SplitPayload)
  | CallMint (payload : PostMintPayload)
  | CallMelt (payload : MeltPayload)
  | CallRestore (outputs : list SerializedBlindedMessage).

(* CashuMint: each answer may depend on everything the mint has been
   sent before. *)
Record CashuMint := mkCashuMint {
  mintUrl : string;
  mint_getKeys : list MintCall -> option string -> option string -> MintFailure + MintKeys;
  mint_split : list MintCall -> SplitPayload ->
               MintFailure + list SerializedBlindedSignature;
  CashuMint_split : list MintCall -> string -> SplitPayload ->
                    MintFailure + list SerializedBlindedSignature;
  mint_mint : list MintCall -> PostMintPayload ->
              MintFailure + list SerializedBlindedSignature;
  mint_melt : list MintCall -> MeltPayload -> MintFailure + MeltResponse;
  mint_restore : list MintCall -> list SerializedBlindedMessage ->
                 MintFailure + PostRestoreResponse
}.

(* --------------------------------------------------------------------- *)
(* bytesToHex and TextEncoder / TextDecoder on ASCII                     *)
(* --------------------------------------------------------------------- *)

Definition hex_digit (n : N) : ascii :=
  if n <? 10 then ascii_of_N (48 + n) else ascii_of_N (87 + n).

Fixpoint bytesToHex (b : bytes) : string :=
  match b with
  | [] => EmptyString
  | x :: rest =>
      let n := Byte.to_N x in
      String (hex_digit (n / 16)) (String (hex_digit (n mod 16)) (bytesToHex rest))
  end.

Definition TextEncoder_encode (s : string) : bytes :=
  List.map byte_of_ascii (list_ascii_of_string s).

Definition TextDecoder_decode (b : bytes) : string :=
  string_of_list_ascii (List.map ascii_of_byte b).

(* --------------------------------------------------------------------- *)
(* utils.ts : the amount decomposer                                      *)
(* --------------------------------------------------------------------- *)

(* One denomination per set bit of [p], lowest first; [w] is the weight
   of the lowest bit of [p]. *)
Fixpoint split_bits (p : positive) (w : N) : list N :=
  match p with
  | xH => [w]
  | xO p' => split_bits p' (2 * w)
  | xI p' => w :: split_bits p' (2 * w)
  end.

Definition default_split (amount : N) : list N :=
  match amount with
  | N0 => []
  | Npos p => split_bits p 1
  end.

Definition isPowerOfTwo (n : N) : bool :=
  negb (n =? 0) && (N.land n (n - 1) =? 0).

(* preference.reduce((acc, curr) => acc + curr.amount * curr.count, 0),
   as send computes it *)
Definition preference_total (preference : list AmountPreference) : N :=
  fold_left (fun acc curr => acc + pref_amount curr * pref_count curr) preference 0.

Definition expand_preference (preference : list AmountPreference) : list N :=
  flat_map (fun pa => repeat (pref_amount pa) (N.to_nat (pref_count pa))) preference.

(** Modelled from the spec: [splitAmount] of utils.ts, which is not part
    of the sources at hand.  Section 4.4: with a preference whose total is
    the amount, each preferred amount is emitted [count] times in the
    given order; every preferred amount must be a power of two, otherwise
    InvalidPreference; in every other case the default split, one power
    of two per set bit in ascending order, and the empty list for 0.
    An absent preference is [None]; an array, even an empty one, is
    truthy in the source and is [Some]. *)
Definition splitAmount (amount : N) (amountPreference : option (list AmountPreference))
  : Error + list N :=
  match amountPreference with
  | None => inr (default_split amount)
  | Some preference =>
      if forallb (fun pa => isPowerOfTwo (pref_amount pa)) preference then
        if preference_total preference =? amount
        then inr (expand_preference preference)
        else inr (default_split amount)
      else inl InvalidPreference
  end.

(** Modelled from the spec: [getDefaultAmountPreference] of utils.ts
    (section 4.6, receive: "if no preference, default-split amount"). *)
Definition getDefaultAmountPreference (amount : N) : list AmountPreference :=
  List.map (fun a => mkPreference a 1) (default_split amount).

(* --------------------------------------------------------------------- *)
(* DHKE.ts                                                               *)
(* --------------------------------------------------------------------- *)

Section DHKE.
Context `{Curve} `{Entropy}.

(** Modelled from the spec: [blindMessage] of DHKE.ts (section 4.2):
    the blinding factor is sampled when none is supplied, and
    B_ = hashToCurve(secret) + r * G. *)
Definition blindMessage (secret : bytes) (r : option Z) (g : Rng) : (Point * Z) * Rng :=
  let '(r', g') := match r with
                   | Some r0 => (r0, g)
                   | None => randomScalar g
                   end in
  ((point_add (hashToCurve secret) (G_mul r'), r'), g').

(** Modelled from the spec: [unblindSignature] of DHKE.ts:
    C = C_ - r * K. *)
Definition unblindSignature (C_ : Point) (r : Z) (K : Point) : Point :=
  point_sub C_ (point_mul r K).

(** Modelled from the spec: [constructProofs] of DHKE.ts (section 4.2):
    signatures are paired element-wise with their r and secret, K is
    looked up by the amount of the signature (UnknownDenomination when
    missing), the proof carries the amount and the keyset id of the
    signature; lists of different lengths abort. *)
Fixpoint constructProofs (promises : list SerializedBlindedSignature)
    (rs0 : list Z) (secrets0 : list bytes) (keyset : MintKeys) : Error + list Proof :=
  match promises, rs0, secrets0 with
  | [], [], [] => inr []
  | p :: promises', r :: rs', s :: secrets' =>
      match keys_keys keyset !! sig_amount p with
      | None => inl UnknownDenomination
      | Some Khex =>
          match pointFromHex (sig_C_ p), pointFromHex Khex with
          | Some C_, Some K =>
              match constructProofs promises' rs' secrets' keyset with
              | inl e => inl e
              | inr rest =>
                  inr (mkProof (sig_id p) (sig_amount p) (TextDecoder_decode s)
                         (toHex (unblindSignature C_ r K)) :: rest)
              end
          | _, _ => inl InvalidPoint
          end
      end
  | _, _, _ => inl LengthMismatch
  end.
End DHKE.

(* --------------------------------------------------------------------- *)
(* The wallet object and the computations over it                        *)
(* --------------------------------------------------------------------- *)

(* The private fields of CashuWallet.  [_keys] is [None] for the empty
   object the class starts with, which is the only MintKeys value with no
   property of its own. *)
Record Wallet := mkWallet {
  _keys : option MintKeys;
  _keysetId : string;
  _seed : option bytes;
  wallet_unit : string
}.

Section Wallet.
Context `{Curve} `{Derivation} `{Entropy}.

Record World := mkWorld {
  wallet : Wallet;
  rng : Rng;
  calls : list MintCall
}.

Definition M (A : Type) : Type := World -> (Error + A) * World.

Definition ret {A} (a : A) : M A := fun w => (inr a, w).

Definition throw {A} (e : Error) : M A := fun w => (inl e, w).

Definition bind {A B} (m : M A) (k : A -> M B) : M B :=
  fun w => match m w with
           | (inr a, w') => k a w'
           | (inl e, w') => (inl e, w')
           end.

(* try { m } catch (error) { handler } *)
Definition try_catch {A} (m : M A) (handler : Error -> M A) : M A :=
  fun w => match m w with
           | (inr a, w') => (inr a, w')
           | (inl e, w') => handler e w'
           end.

Definition lift {A} (r : Error + A) : M A := fun w => (r, w).

Definition this : M Wallet := fun w => (inr (wallet w), w).

Definition set_keys (keys : MintKeys) : M unit :=
  fun w =>
    (inr tt,
     mkWorld (mkWallet (Some keys) (keys_id keys) (_seed (wallet w)) (wallet_unit (wallet w)))
             (rng w) (calls w)).

Definition set_keysetId (id : string) : M unit :=
  fun w =>
    (inr tt,
     mkWorld (mkWallet (_keys (wallet w)) id (_seed (wallet w)) (wallet_unit (wallet w)))
             (rng w) (calls w)).

Definition with_rng {A} (f : Rng -> A * Rng) : M A :=
  fun w => let '(a, g) := f (rng w) in (inr a, mkWorld (wallet w) g (calls w)).

(* A request to the mint: it is recorded, and the mint answers knowing
   the requests that came before. *)
Definition request {A} (c : MintCall) (answer : list MintCall -> MintFailure + A) : M A :=
  fun w =>
    let w' := mkWorld (wallet w) (rng w) (calls w ++ [c]) in
    match answer (calls w) with
    | inl f => (inl (MintError f), w')
    | inr a => (inr a, w')
    end.
End Wallet.

Declare Scope wallet_scope.
Delimit Scope wallet_scope with wallet.
Notation "x <- c1 ;; c2" := (bind c1 (fun x => c2))
  (at level 100, c1 at next level, right associativity) : wallet_scope.
Notation "c1 ;; c2" := (bind c1 (fun _ => c2))
  (at level 100, right associativity) : wallet_scope.

(* --------------------------------------------------------------------- *)
(* class CashuWallet                                                     *)
(* --------------------------------------------------------------------- *)

(* The numbers Math.ceil(Math.log2(n)) takes on an unsigned integer n:
   -Infinity and the integers. *)
Inductive JsNumber :=
  | NegInfinity
  | Finite (z : Z).

(* Math.log2 works in binary64.  For 2^k < n < 2^(k+1) the logarithm lies
   strictly between the doubles k and k + 1 and is rounded to the nearest
   double; Math.ceil of the result is k + 1 unless the logarithm is
   rounded down to k itself, which happens when it is below k + 2^-m,
   half an ulp above k, where m = 53 - floor(log2 k).  That is the case
   exactly when n^(2^m) < 2^(k * 2^m + 1).  With j = n - 2^k, Bernoulli's
   inequality settles the comparison without the large powers when
   j * 2^m >= 2^k (the power is at least twice 2^(k * 2^m)) and when
   2 * j * 2^m <= 2^k (it is less than that).  ECMAScript leaves the
   precision of Math.log2 to the engine; the correctly rounded value is
   taken here, and what is proved of the count stays below 2^48, where
   the logarithm is more than an ulp above k. *)
Definition log2_rounds_down (n k : N) : bool :=
  let m := 53 - N.log2 k in
  let j := n - 2 ^ k in
  if 2 ^ k <=? j * 2 ^ m then false
  else if 2 * j * 2 ^ m <=? 2 ^ k then true
  else n ^ (2 ^ m) <? 2 ^ (k * 2 ^ m + 1).

(* Math.ceil(Math.log2(n)) for an unsigned integer n that a number holds
   exactly: -Infinity at 0, k at 2^k, and otherwise the ceiling of the
   rounded logarithm. *)
Definition Math_ceil_log2 (n : N) : JsNumber :=
  match n with
  | N0 => NegInfinity
  | Npos _ =>
      let k := N.log2 n in
      if n =? 2 ^ k then Finite (Z.of_N k)
      else if log2_rounds_down n k then Finite (Z.of_N k)
      else Finite (Z.of_N (k + 1))
  end.

(* x || y on numbers: 0 is the falsy one, -Infinity is truthy *)
Definition js_or (x y : JsNumber) : JsNumber :=
  match x with
  | Finite 0%Z => y
  | _ => x
  end.

Definition js_lt_zero (x : JsNumber) : bool :=
  match x with
  | NegInfinity => true
  | Finite z => (z <? 0)%Z
  end.

(* Array(count).fill(v) *)
Definition Array_fill {A} (count : JsNumber) (v : A) : list A :=
  match count with
  | NegInfinity => []
  | Finite z => repeat v (Z.to_nat z)
  end.

Section CashuWallet.
Context `{Curve} `{Derivation} `{Entropy} `{TokenFormat}.

(* The public field [mint], set by the constructor and never assigned
   again. *)
Variable mint : CashuMint.

Local Open Scope wallet_scope.

(* constructor(mint, keys?, mnemonicOrSeed?) *)
Definition constructor (keys : option MintKeys) (mnemonicOrSeed : option (string + bytes))
  : Error + Wallet :=
  let keysetId := match keys with
                  | Some k => keys_id k
                  | None => EmptyString
                  end in
  match mnemonicOrSeed with
  | None => inr (mkWallet keys keysetId None "sat")
  | Some (inr seed) => inr (mkWallet keys keysetId (Some seed) "sat")
  | Some (inl EmptyString) => inr (mkWallet keys keysetId None "sat")
  | Some (inl mnemonic) =>
      if validateMnemonic mnemonic
      then inr (mkWallet keys keysetId (Some (deriveSeedFromMnemonic mnemonic)) "sat")
      else inl InvalidMnemonic
  end.

(* private async initKeys() *)
Definition initKeys : M MintKeys :=
  w <- this ;;
  let fetch :=
    keys <- request (CallGetKeys None None) (fun h => mint_getKeys mint h None None) ;;
    set_keys keys ;;
    set_keysetId (keys_id keys) ;;
    ret keys in
  match _keys w with
  | None => fetch
  | Some keys => if String.eqb (_keysetId w) "" then fetch else ret keys
  end.

(* private async getKeys(arr, mint?) *)
Definition getKeys (arr : list SerializedBlindedSignature) (mint0 : option string)
  : M MintKeys :=
  keys <- initKeys ;;
  match arr with
  | [] => ret keys
  | first :: _ =>
      if String.eqb (sig_id first) "" then ret keys
      else
        let keysetId := sig_id first in
        w <- this ;;
        if String.eqb (_keysetId w) keysetId then ret keys
        else
          match mint0 with
          | None =>
              request (CallGetKeys (Some keysetId) None)
                      (fun h => mint_getKeys mint h (Some keysetId) None)
          | Some url =>
              if String.eqb url "" || String.eqb url (mintUrl mint)
              then request (CallGetKeys (Some keysetId) None)
                           (fun h => mint_getKeys mint h (Some keysetId) None)
              else request (CallGetKeys (Some keysetId) (Some url))
                           (fun h => mint_getKeys mint h (Some keysetId) (Some url))
          end
  end.

(* The body of the for loop of createBlindedMessages, from index [i] on.
   [keysetId] is a string, so that `keysetId ?? this.keysetId` is
   [keysetId]. *)
Fixpoint createBlindedMessages_from (seed : option bytes) (keysetId : string)
    (counter : option N) (amounts0 : list N) (i : N) (g : Rng)
  : (list SerializedBlindedMessage * list bytes * list Z) * Rng :=
  match amounts0 with
  | [] => (([], [], []), g)
  | a :: rest =>
      let '(secretBytes, deterministicR, g1) :=
        match seed, counter with
        | Some s, Some c =>
            (deriveSecret s keysetId (c + i),
             Some (bytesToNumber (deriveBlindingFactor s keysetId (c + i))), g)
        | _, _ => let '(b, g') := randomBytes 32 g in (b, None, g')
        end in
      let secretHex := bytesToHex secretBytes in
      let secret := TextEncoder_encode secretHex in
      let '((B_, r), g2) := blindMessage secret deterministicR g1 in
      let blindedMessage := mkBlindedMessage a (toHex B_) keysetId in
      let '((bms, ss, rs0), g3) :=
        createBlindedMessages_from seed keysetId counter rest (i + 1) g2 in
      ((blindedMessage :: bms, secret :: ss, r :: rs0), g3)
  end.

(* private createBlindedMessages(amounts, keysetId, counter?) *)
Definition createBlindedMessages (amounts0 : list N) (keysetId : string)
    (counter : option N) : M BlindedTransaction :=
  w <- this ;;
  match counter, _seed w with
  | Some _, None => throw NoSeed
  | _, _ =>
      out <- with_rng (createBlindedMessages_from (_seed w) keysetId counter amounts0 0) ;;
      let '(bms, ss, rs0) := out in
      ret (mkBlindedTransaction bms ss rs0 amounts0)
  end.

(* private createRandomBlindedMessages(amount, keyset, amountPreference?, counter?) *)
Definition createRandomBlindedMessages (amount : N) (keyset : MintKeys)
    (amountPreference : option (list AmountPreference)) (counter : option N)
  : M BlindedTransaction :=
  amounts0 <- lift (splitAmount amount amountPreference) ;;
  createBlindedMessages amounts0 (keys_id keyset) counter.

(* The number of blank outputs createBlankOutputs asks for. *)
Definition blank_count (feeReserve : N) : JsNumber :=
  let count := js_or (Math_ceil_log2 feeReserve) (Finite 1) in
  if js_lt_zero count then Finite 0 else count.

(* private createBlankOutputs(feeReserve, keysetId, counter?) *)
Definition createBlankOutputs (feeReserve : N) (keysetId : string) (counter : option N)
  : M BlindedTransaction :=
  let count := blank_count feeReserve in
  let amounts0 := match count with
                  | Finite 0%Z => []
                  | _ => Array_fill count 1
                  end in
  createBlindedMessages amounts0 keysetId counter.

(* private splitReceive(amount, amountAvailable) *)
Definition splitReceive (amount amountAvailable : N) : N * N :=
  let amountKeep := amountAvailable - amount in
  let amountSend := amount in
  (amountKeep, amountSend).

Definition total_amount (proofs : list Proof) : N :=
  fold_left (fun total curr => total + proof_amount curr) proofs 0.

(* private createSplitPayload(amount, proofsToSend, keyset, preference?, counter?) *)
Definition createSplitPayload (amount : N) (proofsToSend : list Proof) (keyset : MintKeys)
    (preference : option (list AmountPreference)) (counter : option N)
  : M (SplitPayload * BlindedTransaction) :=
  let totalAmount := total_amount proofsToSend in
  keepBlindedMessages <-
    createRandomBlindedMessages (totalAmount - amount) keyset None counter ;;
  w <- this ;;
  (* if (this._seed && counter): a counter of 0 is falsy *)
  let counter' :=
    match _seed w, counter with
    | Some _, Some c =>
        if c =? 0 then counter
        else Some (c + N.of_nat (List.length (secrets keepBlindedMessages)))
    | _, _ => counter
    end in
  sendBlindedMessages <- createRandomBlindedMessages amount keyset preference counter' ;;
  let blindedMessages0 :=
    mkBlindedTransaction
      (blindedMessages keepBlindedMessages ++ blindedMessages sendBlindedMessages)
      (secrets keepBlindedMessages ++ secrets sendBlindedMessages)
      (rs keepBlindedMessages ++ rs sendBlindedMessages)
      (amounts keepBlindedMessages ++ amounts sendBlindedMessages) in
  let payload := mkSplitPayload proofsToSend (blindedMessages blindedMessages0) in
  ret (payload, blindedMessages0).

(* The first forEach of send: proofs are taken in the given order until
   the amount is covered; state (amountAvailable, proofsToSend,
   proofsToKeep). *)
Definition select_step (amount : N) (st : N * list Proof * list Proof) (proof : Proof)
  : N * list Proof * list Proof :=
  let '(amountAvailable, proofsToSend, proofsToKeep) := st in
  if amount <=? amountAvailable
  then (amountAvailable, proofsToSend, proofsToKeep ++ [proof])
  else (amountAvailable + proof_amount proof, proofsToSend ++ [proof], proofsToKeep).

(* The second forEach of send: "sum up proofs until amount2 is reached";
   state (amountKeepCounter, splitProofsToKeep, splitProofsToSend). *)
Definition keep_step (amountKeep : N) (st : N * list Proof * list Proof) (proof : Proof)
  : N * list Proof * list Proof :=
  let '(amountKeepCounter, splitProofsToKeep, splitProofsToSend) := st in
  if amountKeepCounter <? amountKeep
  then (amountKeepCounter + proof_amount proof, splitProofsToKeep ++ [proof],
        splitProofsToSend)
  else (amountKeepCounter, splitProofsToKeep, splitProofsToSend ++ [proof]).

(* async send(amount, proofs, preference?, counter?) *)
Definition send (amount : N) (proofs : list Proof)
    (preference : option (list AmountPreference)) (counter : option N)
  : M SendResponse :=
  let amount := match preference with
                | Some p => preference_total p
                | None => amount
                end in
  keyset <- initKeys ;;
  let '(amountAvailable, proofsToSend, proofsToKeep) :=
    fold_left (select_step amount) proofs (0, [], []) in
  if amountAvailable <? amount then throw NotEnoughFunds
  else if (amount <? amountAvailable) || (match preference with
                                          | Some _ => true
                                          | None => false
                                          end) then
    let '(amountKeep, amountSend) := splitReceive amount amountAvailable in
    sp <- createSplitPayload amountSend proofsToSend keyset preference counter ;;
    let '(payload, blindedMessages0) := sp in
    signatures <- request (CallSplit payload) (fun h => mint_split mint h payload) ;;
    proofs0 <- lift (constructProofs signatures (rs blindedMessages0)
                       (secrets blindedMessages0) keyset) ;;
    let '(_, splitProofsToKeep, splitProofsToSend) :=
      fold_left (keep_step amountKeep) proofs0 (0, [], []) in
    ret (mkSendResponse (splitProofsToKeep ++ proofsToKeep) splitProofsToSend)
  else ret (mkSendResponse proofsToKeep proofsToSend).

(* The try block of receiveTokenEntry; it returns (proofs,
   proofsWithError). *)
Definition receiveTokenEntry_try (tokenEntry : TokenEntry)
    (preference : option (list AmountPreference)) (counter : option N)
  : M (list Proof * list Proof) :=
  let amount := total_amount (entry_proofs tokenEntry) in
  let preference := match preference with
                    | Some p => p
                    | None => getDefaultAmountPreference amount
                    end in
  keyset <- initKeys ;;
  sp <- createSplitPayload amount (entry_proofs tokenEntry) keyset
          (Some preference) counter ;;
  let '(payload, blindedMessages0) := sp in
  signatures <- request (CallStaticSplit (entry_mint tokenEntry) payload)
                  (fun h => CashuMint_split mint h (entry_mint tokenEntry) payload) ;;
  newProofs <- lift (constructProofs signatures (rs blindedMessages0)
                       (secrets blindedMessages0) keyset) ;;
  ret (newProofs, []).

(* async receiveTokenEntry(tokenEntry, preference?, counter?) *)
Definition receiveTokenEntry (tokenEntry : TokenEntry)
    (preference : option (list AmountPreference)) (counter : option N)
  : M ReceiveTokenEntryResponse :=
  r <- try_catch (receiveTokenEntry_try tokenEntry preference counter)
         (fun _ => ret ([], entry_proofs tokenEntry)) ;;
  let '(proofs, proofsWithError) := r in
  ret (mkReceiveTokenEntryResponse proofs
         (match proofsWithError with
          | [] => None
          | _ :: _ => Some proofsWithError
          end)).

(* What one round of the for loop of receive adds: an entry with errors
   (left) or a new entry (right). *)
Definition receive_entry (tokenEntry : TokenEntry)
    (preference : option (list AmountPreference)) (counter : option N)
  : M (TokenEntry + TokenEntry) :=
  try_catch
    (resp <- receiveTokenEntry tokenEntry preference counter ;;
     match rte_proofsWithError resp with
     | Some (_ :: _) => ret (inl tokenEntry)
     | _ => ret (inr (mkTokenEntry (entry_mint tokenEntry) (rte_proofs resp)))
     end)
    (fun _ => ret (inl tokenEntry)).

(* The for loop of receive; the result is (tokenEntries,
   tokenEntriesWithError). *)
Fixpoint receive_entries (decodedToken : list TokenEntry)
    (preference : option (list AmountPreference)) (counter : option N)
  : M (list TokenEntry * list TokenEntry) :=
  match decodedToken with
  | [] => ret ([], [])
  | tokenEntry :: rest =>
      match entry_proofs tokenEntry with
      | [] => receive_entries rest preference counter
      | _ :: _ =>
          r <- receive_entry tokenEntry preference counter ;;
          acc <- receive_entries rest preference counter ;;
          let '(tokenEntries, tokenEntriesWithError) := acc in
          match r with
          | inl bad => ret (tokenEntries, bad :: tokenEntriesWithError)
          | inr good => ret (good :: tokenEntries, tokenEntriesWithError)
          end
      end
  end.

(* async receive(token, preference?, counter?) *)
Definition receive (token0 : string + Token)
    (preference : option (list AmountPreference)) (counter : option N)
  : M ReceiveResponse :=
  decodedToken <- match token0 with
                  | inl encoded =>
                      match getDecodedToken encoded with
                      | Some t => ret (token (cleanToken t))
                      | None => throw MalformedToken
                      end
                  | inr t => ret (token t)
                  end ;;
  acc <- receive_entries decodedToken preference counter ;;
  let '(tokenEntries, tokenEntriesWithError) := acc in
  ret (mkReceiveResponse
         (mkToken tokenEntries None)
         (match tokenEntriesWithError with
          | [] => None
          | _ :: _ => Some (mkToken tokenEntriesWithError None)
          end)).

(* rs.filter((r, i) => outputs.map((o) => o.B_).includes(blindedMessages[i].B_)) *)
Definition restore_valid {A} (outputs : list SerializedBlindedMessage)
    (blindedMessages0 : list SerializedBlindedMessage) (xs : list A) : list A :=
  List.map fst
    (List.filter
       (fun xb => existsb (String.eqb (bm_B_ (snd xb))) (List.map bm_B_ outputs))
       (combine xs blindedMessages0)).

(* async restore(start, count, keysetId) *)
Definition restore (start count : N) (keysetId : string) : M (list Proof) :=
  w <- this ;;
  match _seed w with
  | None => throw RestoreWithoutSeed
  | Some _ =>
      let amounts0 := repeat 0 (N.to_nat count) in
      bt <- createBlindedMessages amounts0 keysetId (Some start) ;;
      resp <- request (CallRestore (blindedMessages bt))
                (fun h => mint_restore mint h (blindedMessages bt)) ;;
      let outputs := restore_outputs resp in
      let promises := restore_promises resp in
      let validRs := restore_valid outputs (blindedMessages bt) (rs bt) in
      let validSecrets := restore_valid outputs (blindedMessages bt) (secrets bt) in
      keys <- getKeys promises None ;;
      lift (constructProofs promises validRs validSecrets keys)
  end.

(* async mintTokens(amount, quote, AmountPreference?) *)
Definition mintTokens (amount : N) (quote0 : string)
    (preference : option (list AmountPreference)) : M (list Proof) :=
  keyset <- initKeys ;;
  bt <- createRandomBlindedMessages amount keyset preference None ;;
  let postMintPayload := mkPostMintPayload (blindedMessages bt) quote0 in
  signatures <- request (CallMint postMintPayload)
                  (fun h => mint_mint mint h postMintPayload) ;;
  lift (constructProofs signatures (rs bt) (secrets bt) keyset).

(* async meltTokens(meltQuote, proofsToSend, keysetId?, counter?) *)
Definition meltTokens (meltQuote : MeltQuoteResponse) (proofsToSend : list Proof)
    (keysetId : option string) (counter : option N) : M MeltTokensResponse :=
  w <- this ;;
  bt <- createBlankOutputs (fee_reserve meltQuote)
          (match keysetId with
           | Some k => k
           | None => _keysetId w
           end) counter ;;
  let meltPayload :=
    mkMeltPayload (quote meltQuote) proofsToSend (blindedMessages bt) in
  meltResponse <- request (CallMelt meltPayload) (fun h => mint_melt mint h meltPayload) ;;
  change0 <- match change meltResponse with
             | Some ch =>
                 keys <- getKeys ch None ;;
                 lift (constructProofs ch (rs bt) (secrets bt) keys)
             | None => ret []
             end ;;
  ret (mkMeltTokensResponse
         (match paid meltResponse with
          | Some b => b
          | None => false
          end)
         (payment_preimage meltResponse)
         change0).
End CashuWallet.


(* --------------------------------------------------------------------- *)
(* class CashuWallet: melt quotes, payments and state checks             *)
(* --------------------------------------------------------------------- *)

Inductive CheckStateEnum :=
  | UNSPENT
  | PENDING
  | SPENT.

Definition CheckStateEnum_eqb (a b : CheckStateEnum) : bool :=
  match a, b with
  | UNSPENT, UNSPENT | PENDING, PENDING | SPENT, SPENT => true
  | _, _ => false
  end.

(* An entry of the answer of the check endpoint. *)
Record CheckStateEntry := mkCheckStateEntry {
  state_secret : string;
  state_state : CheckStateEnum
}.

(* The endpoints of CashuMint that hand out no signatures: meltQuote
   (unit, request) and check (secrets).  Their answers, too, may depend on
   the requests recorded so far; the requests to them are not recorded
   themselves. *)
Record CashuMintQueries := mkCashuMintQueries {
  mint_meltQuote : list MintCall -> string -> string -> MintFailure + MeltQuoteResponse;
  mint_check : list MintCall -> list string -> MintFailure + list CheckStateEntry
}.

Section CashuWalletQueries.
Context `{Curve} `{Derivation} `{Entropy} `{TokenFormat}.
Variable mint : CashuMint.
Variable queries : CashuMintQueries.

Local Open Scope wallet_scope.

Definition ask {A} (answer : list MintCall -> MintFailure + A) : M A :=
  fun w =>
    match answer (calls w) with
    | inl f => (inl (MintError f), w)
    | inr a => (inr a, w)
    end.

(* async getMeltQuote(invoice) *)
Definition getMeltQuote (invoice : string) : M MeltQuoteResponse :=
  w <- this ;;
  ask (fun h => mint_meltQuote queries h (wallet_unit w) invoice).

(* async payLnInvoice(invoice, proofsToSend, meltQuote?, keysetId?, counter?) *)
Definition payLnInvoice (invoice : string) (proofsToSend : list Proof)
    (meltQuote : option MeltQuoteResponse) (keysetId : option string) (counter : option N)
  : M MeltTokensResponse :=
  meltQuote0 <- match meltQuote with
                | Some q => ret q
                | None =>
                    w <- this ;;
                    ask (fun h => mint_meltQuote queries h (wallet_unit w) invoice)
                end ;;
  meltTokens mint meltQuote0 proofsToSend keysetId counter.

(* payLnInvoiceWithToken(invoice, token, meltQuote?, keysetId?, counter?) *)
Definition payLnInvoiceWithToken (invoice : string) (token0 : string)
    (meltQuote : option MeltQuoteResponse) (keysetId : option string) (counter : option N)
  : M MeltTokensResponse :=
  match getDecodedToken token0 with
  | None => throw MalformedToken
  | Some decodedToken =>
      let proofs :=
        flat_map entry_proofs
          (List.filter (fun x => String.eqb (entry_mint x) (mintUrl mint))
             (token decodedToken)) in
      payLnInvoice invoice proofs meltQuote keysetId counter
  end.

(* async checkProofsSpent<T extends { secret: string }>(proofs); [secret_of]
   reads the secret field of a T. *)
Definition checkProofsSpent {T} (secret_of : T -> string) (proofs : list T) : M (list T) :=
  let payload := List.map secret_of proofs in
  states <- ask (fun h => mint_check queries h payload) ;;
  ret (List.filter
         (fun proof =>
            match List.find (fun st => String.eqb (state_secret st) (secret_of proof))
                    states with
            | Some st => CheckStateEnum_eqb (state_state st) SPENT
            | None => false
            end) proofs).
End CashuWalletQueries.
(* ===================================================================== *)
(* Vocabulary of the properties                                          *)
(* ===================================================================== *)

Definition sumN (l : list N) : N := fold_right N.add 0 l.

(* Derivation indices start, start + 1, ..., start + n - 1. *)
Fixpoint indices (start : N) (n : nat) : list N :=
  match n with
  | O => []
  | S n' => start :: indices (start + 1) n'
  end.

(* k is the ceiling of the binary logarithm of fee: the least exponent
   whose power of two reaches fee. *)
Definition is_ceil_log2 (fee k : N) : Prop :=
  fee <= 2 ^ k /\ forall j, fee <= 2 ^ j -> k <= j.

Section Vocabulary.
Context `{Curve} `{Derivation} `{Entropy} `{TokenFormat}.

(* The outputs derived from index [j] of a keyset. *)
Definition derived_secret (seed : bytes) (keysetId : string) (j : N) : bytes :=
  TextEncoder_encode (bytesToHex (deriveSecret seed keysetId j)).

Definition derived_r (seed : bytes) (keysetId : string) (j : N) : Z :=
  bytesToNumber (deriveBlindingFactor seed keysetId j).

Definition derived_message (seed : bytes) (keysetId : string) (aj : N * N)
  : SerializedBlindedMessage :=
  mkBlindedMessage (fst aj)
    (toHex (point_add (hashToCurve (derived_secret seed keysetId (snd aj)))
                      (G_mul (derived_r seed keysetId (snd aj)))))
    keysetId.

(* From a world in P, m ends in Q when it returns and in E when it
   throws. *)
Definition triple {A} (P : World -> Prop) (m : M A)
    (Q : A -> World -> Prop) (E : Error -> World -> Prop) : Prop :=
  forall w, P w ->
    match m w with
    | (inr a, w') => Q a w'
    | (inl e, w') => E e w'
    end.

(* The seed the wallet was built with stays, and the requests sent to
   the mint only grow. *)
Definition Inv (seed : option bytes) (sent : list MintCall) (w : World) : Prop :=
  _seed (wallet w) = seed /\ exists more, calls w = sent ++ more.

(* An error raised while [counter] was the counter argument on a wallet
   with seed [seed] is a no-seed error only if a counter was supplied and
   there is no seed. *)
Definition planning_error (seed : option bytes) (counter : option N) (e : Error) : Prop :=
  is_no_seed_error e = true -> counter <> None /\ seed = None.

(* m keeps the invariant, whether it returns or throws, and throws a
   no-seed error only for a counter without a seed. *)
Definition keeps {A} (seed : option bytes) (sent : list MintCall) (counter : option N)
    (m : M A) : Prop :=
  triple (Inv seed sent) m (fun _ => Inv seed sent)
    (fun e w => Inv seed sent w /\ planning_error seed counter e).

(* A mint that answers a split with one signature per requested output,
   in request order, for the requested amount. *)
Definition signs_as_requested (mint : CashuMint) : Prop :=
  forall sent payload signatures,
    mint_split mint sent payload = inr signatures ->
    List.map sig_amount signatures = List.map bm_amount (split_outputs payload).

(* The entries with errors of a receive response. *)
Definition tokensWithErrors_entries (r : ReceiveResponse) : list TokenEntry :=
  match rr_tokensWithErrors r with
  | Some t => token t
  | None => []
  end.
End Vocabulary.

(* --------------------------------------------------------------------- *)
(* The values behind the typed responses                                 *)
(* --------------------------------------------------------------------- *)

#[local] Unset Elimination Schemes.
Inductive JsValue :=
  | JsUndefined
  | JsNum (n : N)
  | JsStr (s : string)
  | JsArray (items : list JsValue)
  | JsObject (fields : list (string * JsValue)).
#[local] Set Elimination Schemes.

Definition js_get (field : string) (v : JsValue) : JsValue :=
  match v with
  | JsObject fields =>
      match List.find (fun kv => String.eqb (fst kv) field) fields with
      | Some kv => snd kv
      | None => JsUndefined
      end
  | _ => JsUndefined
  end.

Definition js_isArray (v : JsValue) : bool :=
  match v with
  | JsArray _ => true
  | _ => false
  end.

Definition Proof_value (p : Proof) : JsValue :=
  JsObject [("id", JsStr (proof_id p)); ("amount", JsNum (proof_amount p));
            ("secret", JsStr (proof_secret p)); ("C", JsStr (proof_C p))]%string.

Definition TokenEntry_value (e : TokenEntry) : JsValue :=
  JsObject [("mint", JsStr (entry_mint e));
            ("proofs", JsArray (List.map Proof_value (entry_proofs e)))]%string.

Definition Token_value (t : Token) : JsValue :=
  JsObject (("token", JsArray (List.map TokenEntry_value (token t)))%string ::
            match memo t with
            | Some m => [("memo", JsStr m)]%string
            | None => []
            end).

(* The object literal receive returns (lines 127-130). *)
Definition ReceiveResponse_value (r : ReceiveResponse) : JsValue :=
  JsObject [("token", Token_value (rr_token r));
            ("tokensWithErrors",
             match rr_tokensWithErrors r with
             | Some t => Token_value t
             | None => JsUndefined
             end)]%string.

(* --------------------------------------------------------------------- *)
(* A small instance of the collaborators, for running the class          *)
(* --------------------------------------------------------------------- *)

Definition sample_curve : Curve := {|
  Point := Z;
  hashToCurve := fun b => Z.of_nat (List.length b);
  G_mul := fun r => r;
  point_add := Z.add;
  point_sub := Z.sub;
  point_mul := Z.mul;
  toHex := fun _ => "02ab"%string;
  pointFromHex := fun _ => Some 7%Z
|}.

Definition sample_derivation : Derivation := {|
  deriveSecret := fun seed _ j => seed ++ repeat x01 (N.to_nat j);
  deriveBlindingFactor := fun seed _ j => seed ++ repeat x02 (N.to_nat j);
  bytesToNumber := fun b => Z.of_nat (List.length b);
  validateMnemonic := fun _ => true;
  deriveSeedFromMnemonic := fun _ => [x2a]
|}.

Definition sample_entropy : Entropy := {|
  Rng := N;
  randomBytes := fun n g => (repeat x00 (N.to_nat n), g + 1);
  randomScalar := fun g => ((Z.of_N g + 1)%Z, g + 1)
|}.

Definition sample_format : TokenFormat := {|
  getDecodedToken := fun _ => None;
  cleanToken := fun t => t
|}.

Definition sample_keys : MintKeys :=
  mkMintKeys "009a1f293253e41e"
    (list_to_map [(1, "02k1"%string); (2, "02k2"%string); (4, "02k4"%string)]).

Definition sample_sign (bm : SerializedBlindedMessage) : SerializedBlindedSignature :=
  mkBlindedSignature (bm_id bm) (bm_amount bm) "02cc".

(* A mint that signs what it is asked to sign, except for token entries
   of the mint "https://down.example", whose swap it refuses. *)
Definition sample_mint : CashuMint := {|
  mintUrl := "https://mint.example";
  mint_getKeys := fun _ _ _ => inr sample_keys;
  mint_split := fun _ payload => inr (List.map sample_sign (split_outputs payload));
  CashuMint_split := fun _ url payload =>
    if String.eqb url "https://down.example"
    then inl (mkMintFailure 11001 "Token already spent.")
    else inr (List.map sample_sign (split_outputs payload));
  mint_mint := fun _ payload => inr (List.map sample_sign (mint_outputs payload));
  mint_melt := fun _ _ => inr (mkMeltResponse (Some true) (Some ""%string) None);
  mint_restore := fun _ outputs =>
    inr (mkRestoreResponse outputs (List.map sample_sign outputs))
|}.


Definition sample_proof (amount : N) : Proof :=
  mkProof "009a1f293253e41e" amount "4a6f686e" "02dd".

(* A wallet that has fetched the keys of the mint, without and with a
   seed. *)
Definition sample_wallet : Wallet :=
  mkWallet (Some sample_keys) "009a1f293253e41e" None "sat".

Definition sample_seeded_wallet : Wallet :=
  mkWallet (Some sample_keys) "009a1f293253e41e" (Some [x2a]) "sat".

Definition sample_world (wlt : Wallet) : @World sample_entropy :=
  @mkWorld sample_entropy wlt 0 [].

Definition sample_busy_world : @World sample_entropy :=
  @mkWorld sample_entropy sample_seeded_wallet 41 [CallGetKeys None None].

(* A token with three entries; the mint of the second one refuses. *)
Definition sample_entry_1 : TokenEntry :=
  mkTokenEntry "https://mint.example" [sample_proof 1].

Definition sample_entry_2 : TokenEntry :=
  mkTokenEntry "https://down.example" [sample_proof 2].

Definition sample_entry_3 : TokenEntry :=
  mkTokenEntry "https://mint.example" [sample_proof 4].

Definition sample_token : Token :=
  mkToken [sample_entry_1; sample_entry_2; sample_entry_3] None.

(* --------------------------------------------------------------------- *)
(* Further vocabulary                                                    *)
(* --------------------------------------------------------------------- *)

(* tokenEntry?.proofs?.length is truthy *)
Definition has_proofs (e : TokenEntry) : bool :=
  match entry_proofs e with
  | [] => false
  | _ :: _ => true
  end.

(* A mint whose static split endpoint answers with one signature per
   requested output, in request order, for the requested amount. *)
Definition static_split_signs_as_requested (mint : CashuMint) : Prop :=
  forall sent url payload signatures,
    CashuMint_split mint sent url payload = inr signatures ->
    List.map sig_amount signatures = List.map bm_amount (split_outputs payload).

(* Further samples: a wallet that has not fetched any keys, a mint that
   is down, the quote and check endpoints, and a token format that
   decodes one string. *)
Definition sample_fresh_wallet : Wallet := mkWallet None "" None "sat".

Definition sample_mint_down : CashuMint := {|
  mintUrl := mintUrl sample_mint;
  mint_getKeys := fun _ _ _ => inl (mkMintFailure 503 "unavailable");
  mint_split := mint_split sample_mint;
  CashuMint_split := CashuMint_split sample_mint;
  mint_mint := mint_mint sample_mint;
  mint_melt := mint_melt sample_mint;
  mint_restore := mint_restore sample_mint
|}.

Definition sample_queries : CashuMintQueries := {|
  mint_meltQuote := fun _ _ _ => inr (mkMeltQuote "q1" 10 2);
  mint_check := fun _ _ =>
    inr [mkCheckStateEntry "aa" SPENT; mkCheckStateEntry "bb" UNSPENT;
         mkCheckStateEntry "cc" PENDING; mkCheckStateEntry "bb" SPENT]
|}.

Definition sample_secret_proof (secret : string) : Proof :=
  mkProof "009a1f293253e41e" 1 secret "02dd".

Definition sample_format_decoding : TokenFormat := {|
  getDecodedToken := fun s =>
    if String.eqb s "cashuAsample" then Some sample_token else None;
  cleanToken := fun t => t
|}.

(* log2(n) is below the midpoint of the doubles k and its successor. *)
Definition log2_below_midpoint (n k : N) : Prop :=
  n ^ (2 ^ (53 - N.log2 k)) < 2 ^ (k * 2 ^ (53 - N.log2 k) + 1).
(* ===================================================================== *)
(* Properties                                                            *)
(* ===================================================================== *)

(* --------------------------------------------------------------------- *)
(* Sums of amounts                                                       *)
(* --------------------------------------------------------------------- *)

Lemma sumN_app l1 l2 : sumN (l1 ++ l2) = sumN l1 + sumN l2.
Proof. induction l1 as [|x l1 IH]; simpl; [reflexivity | rewrite IH; lia]. Qed.

Lemma fold_left_add_amounts {A} (f : A -> N) (l : list A) (acc : N) :
  fold_left (fun total curr => total + f curr) l acc = acc + sumN (List.map f l).
Proof.
  revert acc; induction l as [|x l IH]; intros acc; simpl.
  - lia.
  - rewrite IH. lia.
Qed.

Section Totals.
Context `{Curve} `{Derivation} `{Entropy} `{TokenFormat}.

Lemma total_amount_sumN (proofs : list Proof) :
  total_amount proofs = sumN (List.map proof_amount proofs).
Proof. unfold total_amount. rewrite fold_left_add_amounts. lia. Qed.

Lemma total_amount_app (l1 l2 : list Proof) :
  total_amount (l1 ++ l2) = total_amount l1 + total_amount l2.
Proof. rewrite !total_amount_sumN, List.map_app, sumN_app. reflexivity. Qed.
End Totals.

(* --------------------------------------------------------------------- *)
(* The amount decomposer                                                 *)
(* --------------------------------------------------------------------- *)

Lemma split_bits_sum p w : sumN (split_bits p w) = w * Npos p.
Proof.
  revert w; induction p as [p IH | p IH |]; intros w; simpl.
  - rewrite IH. lia.
  - rewrite IH. lia.
  - lia.
Qed.

Lemma split_bits_positive p w : 0 < w -> Forall (fun a => 0 < a) (split_bits p w).
Proof.
  revert w; induction p as [p IH | p IH |]; intros w Hw; simpl.
  - constructor; [assumption | apply IH; lia].
  - apply IH; lia.
  - repeat constructor; assumption.
Qed.

Lemma default_split_sum amount : sumN (default_split amount) = amount.
Proof.
  destruct amount as [|p]; simpl; [reflexivity | rewrite split_bits_sum; lia].
Qed.

Lemma default_split_positive amount : Forall (fun a => 0 < a) (default_split amount).
Proof.
  destruct amount as [|p]; simpl; [constructor | apply split_bits_positive; lia].
Qed.

Lemma sumN_repeat a n : sumN (repeat a n) = a * N.of_nat n.
Proof. induction n as [|n IH]; simpl; [lia | rewrite IH; lia]. Qed.

Lemma expand_preference_sum preference :
  sumN (expand_preference preference) = preference_total preference.
Proof.
  unfold preference_total.
  rewrite (fold_left_add_amounts (fun curr => pref_amount curr * pref_count curr)).
  induction preference as [|pa rest IH]; simpl; [reflexivity |].
  rewrite sumN_app, sumN_repeat, N2Nat.id. simpl in IH. lia.
Qed.

(* What send relies on: the denominations add up to the amount whenever
   the preference, if any, has that total. *)
Lemma splitAmount_sum amount preference l :
  splitAmount amount preference = inr l ->
  sumN l = amount.
Proof.
  unfold splitAmount. destruct preference as [pref|].
  - destruct (forallb _ pref); [|discriminate].
    destruct (N.eqb_spec (preference_total pref) amount) as [E|E]; intros [= <-].
    + rewrite expand_preference_sum. exact E.
    + apply default_split_sum.
  - intros [= <-]. apply default_split_sum.
Qed.

Lemma splitAmount_default amount : splitAmount amount None = inr (default_split amount).
Proof. reflexivity. Qed.

(* --------------------------------------------------------------------- *)
(* Reasoning about computations                                          *)
(* --------------------------------------------------------------------- *)

Section Triples.
Context `{Curve} `{Derivation} `{Entropy} `{TokenFormat}.

Lemma triple_ret {A} (P : World -> Prop) (a : A) Q E :
  (forall w, P w -> Q a w) -> triple P (ret a) Q E.
Proof. intros HQ w Hw. simpl. auto. Qed.

Lemma triple_throw {A} (P : World -> Prop) e (Q : A -> World -> Prop) E :
  (forall w, P w -> E e w) -> triple P (throw e) Q E.
Proof. intros HE w Hw. simpl. auto. Qed.

Lemma triple_lift {A} (P : World -> Prop) (r : Error + A) Q E :
  (forall w a, P w -> r = inr a -> Q a w) ->
  (forall w e, P w -> r = inl e -> E e w) ->
  triple P (lift r) Q E.
Proof. intros HQ HE w Hw. unfold lift. destruct r; eauto. Qed.

Lemma triple_bind {A B} (P : World -> Prop) (m : M A) (k : A -> M B) Q1 Q E :
  triple P m Q1 E ->
  (forall a, triple (Q1 a) (k a) Q E) ->
  triple P (bind m k) Q E.
Proof.
  intros Hm Hk w Hw. unfold bind. specialize (Hm w Hw).
  destruct (m w) as [[e|a] w']; [exact Hm |].
  exact (Hk a w' Hm).
Qed.

Lemma triple_try_catch {A} (P : World -> Prop) (m : M A) handler Q E1 E :
  triple P m Q E1 ->
  (forall e, triple (E1 e) (handler e) Q E) ->
  triple P (try_catch m handler) Q E.
Proof.
  intros Hm Hh w Hw. unfold try_catch. specialize (Hm w Hw).
  destruct (m w) as [[e|a] w']; [exact (Hh e w' Hm) | exact Hm].
Qed.

Lemma triple_weaken {A} (P P' : World -> Prop) (m : M A) (Q Q' : A -> World -> Prop)
    (E E' : Error -> World -> Prop) :
  triple P' m Q' E' ->
  (forall w, P w -> P' w) ->
  (forall a w, Q' a w -> Q a w) ->
  (forall e w, E' e w -> E e w) ->
  triple P m Q E.
Proof.
  intros Hm HP HQ HE w Hw. specialize (Hm w (HP w Hw)).
  destruct (m w) as [[e|a] w']; auto.
Qed.

Lemma triple_this (P : World -> Prop) E :
  triple P this (fun x w => P w /\ x = wallet w) E.
Proof. intros w Hw. simpl. auto. Qed.

Lemma Inv_refl w : Inv (_seed (wallet w)) (calls w) w.
Proof. split; [reflexivity | exists []; rewrite List.app_nil_r; reflexivity]. Qed.

Lemma Inv_set_keys seed sent keys E :
  triple (Inv seed sent) (set_keys keys) (fun _ => Inv seed sent) E.
Proof. intros w [Hs Hc]. simpl. split; assumption. Qed.

Lemma Inv_set_keysetId seed sent id E :
  triple (Inv seed sent) (set_keysetId id) (fun _ => Inv seed sent) E.
Proof. intros w [Hs Hc]. simpl. split; assumption. Qed.

Lemma Inv_with_rng {A} seed sent (f : Rng -> A * Rng) E :
  triple (Inv seed sent) (with_rng f) (fun _ => Inv seed sent) E.
Proof.
  intros w [Hs Hc]. unfold with_rng. destruct (f (rng w)) as [a g]. split; assumption.
Qed.

Lemma Inv_request {A} seed sent c (answer : list MintCall -> MintFailure + A) :
  triple (Inv seed sent) (request c answer) (fun _ => Inv seed sent)
    (fun e w => Inv seed sent w /\ is_no_seed_error e = false).
Proof.
  intros w [Hs [more Hc]]. unfold request.
  assert (Inv seed sent (mkWorld (wallet w) (rng w) (calls w ++ [c]))) as HI.
  { split; [exact Hs |]. exists (more ++ [c]). simpl. rewrite Hc, <- List.app_assoc.
    reflexivity. }
  destruct (answer (calls w)); simpl; auto.
Qed.
End Triples.

(* --------------------------------------------------------------------- *)
(* The output planner                                                    *)
(* --------------------------------------------------------------------- *)

Lemma indices_length start n : List.length (indices start n) = n.
Proof. revert start; induction n as [|n IH]; intros start; simpl; [|rewrite IH]; reflexivity. Qed.

Lemma indices_app start n m :
  indices start (n + m) = indices start n ++ indices (start + N.of_nat n) m.
Proof.
  revert start; induction n as [|n IH]; intros start.
  - simpl. rewrite N.add_0_r. reflexivity.
  - cbn [indices Nat.add List.app]. rewrite IH. do 3 f_equal. lia.
Qed.

Lemma indices_In start n j : In j (indices start n) <-> start <= j < start + N.of_nat n.
Proof.
  revert start; induction n as [|n IH]; intros start; simpl.
  - lia.
  - rewrite IH. lia.
Qed.

Lemma indices_NoDup start n : NoDup (indices start n).
Proof.
  revert start; induction n as [|n IH]; intros start; simpl; constructor.
  - rewrite indices_In. lia.
  - apply IH.
Qed.

Section Planner.
Context `{Curve} `{Derivation} `{Entropy} `{TokenFormat}.

(* With a seed and a counter the loop derives output i from index
   counter + i and leaves the entropy source alone. *)
Lemma createBlindedMessages_from_derived seed keysetId c amounts0 i g :
  createBlindedMessages_from (Some seed) keysetId (Some c) amounts0 i g =
  let js := indices (c + i) (List.length amounts0) in
  ((List.map (derived_message seed keysetId) (combine amounts0 js),
    List.map (derived_secret seed keysetId) js,
    List.map (derived_r seed keysetId) js), g).
Proof.
  revert i; induction amounts0 as [|a rest IH]; intros i; [reflexivity |].
  cbn [createBlindedMessages_from]. unfold blindMessage.
  rewrite IH. cbn [List.length indices combine List.map].
  replace (c + (i + 1)) with (c + i + 1) by lia. reflexivity.
Qed.

(* In every mode the loop emits one output per amount, in order, tagged
   with the keyset id it was given. *)
Lemma createBlindedMessages_from_shape seed keysetId counter amounts0 i g :
  let out := fst (createBlindedMessages_from seed keysetId counter amounts0 i g) in
  List.map bm_amount (fst (fst out)) = amounts0 /\
  Forall (fun bm => bm_id bm = keysetId) (fst (fst out)) /\
  List.length (snd (fst out)) = List.length amounts0 /\
  List.length (snd out) = List.length amounts0.
Proof.
  revert i g; induction amounts0 as [|a rest IH]; intros i g.
  - simpl. repeat split; constructor.
  - cbn [createBlindedMessages_from].
    destruct (match seed with
              | Some s => _
              | None => _
              end) as [[secretBytes deterministicR] g1].
    destruct (blindMessage _ deterministicR g1) as [[B_ r] g2].
    specialize (IH (i + 1) g2).
    destruct (createBlindedMessages_from seed keysetId counter rest (i + 1) g2)
      as [[[bms ss] rs0] g3].
    simpl in *. destruct IH as (Ha & Hid & Hs & Hr).
    repeat split; [f_equal; exact Ha | constructor; [reflexivity | exact Hid] | | ];
      f_equal; assumption.
Qed.

Lemma createBlindedMessages_unfold amounts0 keysetId counter w :
  createBlindedMessages amounts0 keysetId counter w =
  match counter, _seed (wallet w) with
  | Some _, None => (inl NoSeed, w)
  | _, _ =>
      let out := createBlindedMessages_from (_seed (wallet w)) keysetId counter
                   amounts0 0 (rng w) in
      (inr (mkBlindedTransaction (fst (fst (fst out))) (snd (fst (fst out)))
              (snd (fst out)) amounts0),
       mkWorld (wallet w) (snd out) (calls w))
  end.
Proof.
  unfold createBlindedMessages, bind, this, with_rng.
  destruct counter as [c|], (_seed (wallet w)) as [s|]; try reflexivity;
    cbv zeta;
    match goal with
    | |- context [createBlindedMessages_from ?a ?b ?c ?d ?e ?f] =>
        destruct (createBlindedMessages_from a b c d e f) as [[[bms ss] rs0] g]
    end; reflexivity.
Qed.
End Planner.

Section PlannerDerived.
Context `{Curve} `{Derivation} `{Entropy} `{TokenFormat}.

(* The transaction planned from the indices [js] for the amounts [l]. *)
Lemma createBlindedMessages_derived seed keysetId c amounts0 (w : World) :
  _seed (wallet w) = Some seed ->
  createBlindedMessages amounts0 keysetId (Some c) w =
  (let js := indices c (List.length amounts0) in
   inr (mkBlindedTransaction
          (List.map (derived_message seed keysetId) (combine amounts0 js))
          (List.map (derived_secret seed keysetId) js)
          (List.map (derived_r seed keysetId) js)
          amounts0), w).
Proof.
  intros Hseed. rewrite createBlindedMessages_unfold, Hseed.
  rewrite createBlindedMessages_from_derived. cbn [fst snd].
  rewrite N.add_0_r. destruct w; reflexivity.
Qed.

Lemma createRandomBlindedMessages_derived seed keyset amount preference l c (w : World) :
  _seed (wallet w) = Some seed ->
  splitAmount amount preference = inr l ->
  createRandomBlindedMessages amount keyset preference (Some c) w =
  (let js := indices c (List.length l) in
   inr (mkBlindedTransaction
          (List.map (derived_message seed (keys_id keyset)) (combine l js))
          (List.map (derived_secret seed (keys_id keyset)) js)
          (List.map (derived_r seed (keys_id keyset)) js)
          l), w).
Proof.
  intros Hseed Hsplit. unfold createRandomBlindedMessages, bind, lift.
  rewrite Hsplit. apply createBlindedMessages_derived. exact Hseed.
Qed.

(* The secrets of a split payload planned with a seed and a counter: the
   keep group takes the indices from the counter on; the send group
   starts after it, unless the counter is 0, in which case it starts at
   0 again. *)
Lemma createSplitPayload_derived seed keyset amount proofsToSend preference sendAmounts c
    (w : World) :
  _seed (wallet w) = Some seed ->
  splitAmount amount preference = inr sendAmounts ->
  let keepAmounts := default_split (total_amount proofsToSend - amount) in
  let k := List.length keepAmounts in
  exists out,
    createSplitPayload amount proofsToSend keyset preference (Some c) w = (inr out, w) /\
    amounts (snd out) = keepAmounts ++ sendAmounts /\
    secrets (snd out) =
      List.map (derived_secret seed (keys_id keyset))
        (indices c k ++
         indices (if c =? 0 then 0 else c + N.of_nat k) (List.length sendAmounts)).
Proof.
  intros Hseed Hsplit keepAmounts k.
  unfold createSplitPayload.
  unfold bind at 1.
  rewrite (createRandomBlindedMessages_derived seed keyset _ None keepAmounts c w Hseed
             (splitAmount_default _)).
  cbv zeta. unfold bind at 1. unfold this at 1. rewrite Hseed.
  cbn [secrets]. rewrite List.length_map, indices_length. fold k.
  destruct (N.eqb_spec c 0) as [-> | Hc].
  - unfold bind.
    rewrite (createRandomBlindedMessages_derived seed keyset _ _ sendAmounts 0 w Hseed Hsplit).
    cbv zeta. eexists. split; [reflexivity |]. cbn [snd amounts secrets].
    split; [reflexivity |]. rewrite List.map_app. reflexivity.
  - unfold bind.
    rewrite (createRandomBlindedMessages_derived seed keyset _ _ sendAmounts _ w Hseed Hsplit).
    cbv zeta. eexists. split; [reflexivity |]. cbn [snd amounts secrets].
    split; [reflexivity |]. rewrite List.map_app. reflexivity.
Qed.

(* From a counter other than 0 the two groups take one contiguous run of
   indices, none of them twice. *)
Lemma createSplitPayload_contiguous seed keyset amount proofsToSend preference sendAmounts c
    (w : World) :
  _seed (wallet w) = Some seed ->
  splitAmount amount preference = inr sendAmounts ->
  c <> 0 ->
  let keepAmounts := default_split (total_amount proofsToSend - amount) in
  let js := indices c (List.length keepAmounts + List.length sendAmounts) in
  NoDup js /\
  exists out,
    createSplitPayload amount proofsToSend keyset preference (Some c) w = (inr out, w) /\
    secrets (snd out) = List.map (derived_secret seed (keys_id keyset)) js.
Proof.
  intros Hseed Hsplit Hc keepAmounts js. split; [apply indices_NoDup |].
  destruct (createSplitPayload_derived seed keyset amount proofsToSend preference
              sendAmounts c w Hseed Hsplit) as (out & Hrun & _ & Hsecrets).
  exists out. split; [exact Hrun |]. rewrite Hsecrets. unfold js.
  rewrite indices_app. destruct (N.eqb_spec c 0); [contradiction | reflexivity].
Qed.
End PlannerDerived.

(* --------------------------------------------------------------------- *)
(* What every operation of the class keeps                               *)
(* --------------------------------------------------------------------- *)

Section Keeps.
Context `{Curve} `{Derivation} `{Entropy} `{TokenFormat}.
Variable mint : CashuMint.

Lemma planning_error_other seed counter e :
  is_no_seed_error e = false -> planning_error seed counter e.
Proof. intros He Hno. congruence. Qed.

Lemma planning_error_counter seed counter counter' e :
  (counter' <> None -> counter <> None) ->
  planning_error seed counter' e -> planning_error seed counter e.
Proof. intros Hc He Hno. destruct (He Hno). auto. Qed.

Lemma keeps_counter {A} seed sent counter counter' (m : M A) :
  (counter' <> None -> counter <> None) ->
  keeps seed sent counter' m -> keeps seed sent counter m.
Proof.
  intros Hc Hm. eapply triple_weaken; [exact Hm | auto | auto |].
  intros e w [HI He]. split; [exact HI |]. eapply planning_error_counter; eauto.
Qed.

Lemma keeps_ret {A} seed sent counter (a : A) : keeps seed sent counter (ret a).
Proof. apply triple_ret. auto. Qed.

Lemma keeps_throw {A} seed sent counter e :
  planning_error seed counter e -> keeps (A := A) seed sent counter (throw e).
Proof. intros He. apply triple_throw. auto. Qed.

Lemma keeps_lift {A} seed sent counter (r : Error + A) :
  (forall e, r = inl e -> is_no_seed_error e = false) ->
  keeps seed sent counter (lift r).
Proof.
  intros Hr. apply triple_lift; [auto |].
  intros w e HI He. split; [exact HI |]. apply planning_error_other. auto.
Qed.

Lemma keeps_bind {A B} seed sent counter (m : M A) (k : A -> M B) :
  keeps seed sent counter m ->
  (forall a, keeps seed sent counter (k a)) ->
  keeps seed sent counter (bind m k).
Proof. intros Hm Hk. eapply triple_bind; [exact Hm | exact Hk]. Qed.

Lemma keeps_this_bind {B} seed sent counter (k : Wallet -> M B) :
  (forall wlt, _seed wlt = seed -> keeps seed sent counter (k wlt)) ->
  keeps seed sent counter (bind this k).
Proof.
  intros Hk w HI. unfold bind, this. apply (Hk (wallet w)); [apply HI | exact HI].
Qed.

Lemma keeps_try_catch {A} seed sent counter counter' (m : M A) handler :
  keeps seed sent counter' m ->
  (forall e, keeps seed sent counter (handler e)) ->
  keeps seed sent counter (try_catch m handler).
Proof.
  intros Hm Hh. eapply triple_try_catch; [exact Hm |].
  intros e. eapply triple_weaken; [apply (Hh e) | | auto | auto].
  intros w [HI _]. exact HI.
Qed.

Lemma keeps_request {A} seed sent counter c (answer : list MintCall -> MintFailure + A) :
  keeps seed sent counter (request c answer).
Proof.
  intros w HI. pose proof (Inv_request seed sent c answer w HI) as Hr.
  destruct (request c answer w) as [[e|a] w']; [|exact Hr].
  destruct Hr as [HI' He]. split; [exact HI' | apply planning_error_other; exact He].
Qed.

Lemma keeps_with_rng {A} seed sent counter (f : Rng -> A * Rng) :
  keeps seed sent counter (with_rng f).
Proof. apply Inv_with_rng. Qed.

Lemma keeps_set_keys seed sent counter keys : keeps seed sent counter (set_keys keys).
Proof. apply Inv_set_keys. Qed.

Lemma keeps_set_keysetId seed sent counter id : keeps seed sent counter (set_keysetId id).
Proof. apply Inv_set_keysetId. Qed.

Lemma splitAmount_error amount preference e :
  splitAmount amount preference = inl e -> is_no_seed_error e = false.
Proof.
  unfold splitAmount. destruct preference as [p|]; [|discriminate].
  destruct (forallb _ p); [destruct (_ =? _); discriminate |].
  intros [= <-]. reflexivity.
Qed.

Lemma constructProofs_error promises rs0 secrets0 keyset e :
  constructProofs promises rs0 secrets0 keyset = inl e -> is_no_seed_error e = false.
Proof.
  revert rs0 secrets0; induction promises as [|p promises IH]; intros rs0 secrets0.
  - destruct rs0, secrets0; simpl; intros [= <-]; reflexivity.
  - destruct rs0 as [|r rs0]; [simpl; intros [= <-]; reflexivity |].
    destruct secrets0 as [|s secrets0]; [simpl; intros [= <-]; reflexivity |].
    cbn [constructProofs].
    destruct (keys_keys keyset !! sig_amount p); [|intros [= <-]; reflexivity].
    destruct (pointFromHex (sig_C_ p)); [|intros [= <-]; reflexivity].
    destruct (pointFromHex s0); [|intros [= <-]; reflexivity].
    destruct (constructProofs promises rs0 secrets0 keyset) eqn:E; [|discriminate].
    intros [= <-]. eapply IH; eauto.
Qed.

Ltac keeps_steps :=
  repeat first
    [ apply keeps_ret
    | apply keeps_request
    | apply keeps_with_rng
    | apply keeps_set_keys
    | apply keeps_set_keysetId
    | apply keeps_lift; first [apply splitAmount_error | apply constructProofs_error]
    | apply keeps_bind; [|intros ?]
    | apply keeps_this_bind; intros ? ? ].

Lemma keeps_initKeys seed sent counter : keeps seed sent counter (initKeys mint).
Proof.
  unfold initKeys. apply keeps_this_bind; intros wlt Hseed.
  destruct (_keys wlt) as [keys|]; [destruct (String.eqb _ _) |]; keeps_steps.
Qed.

Lemma keeps_getKeys seed sent counter arr mint0 :
  keeps seed sent counter (getKeys mint arr mint0).
Proof.
  unfold getKeys. apply keeps_bind; [apply keeps_initKeys | intros keys].
  destruct arr as [|first rest]; [apply keeps_ret |].
  destruct (String.eqb (sig_id first) ""); [apply keeps_ret |].
  apply keeps_this_bind; intros wlt Hseed.
  destruct (String.eqb _ _); [apply keeps_ret |].
  destruct mint0 as [url|]; [destruct (_ || _) |]; apply keeps_request.
Qed.

Lemma keeps_createBlindedMessages seed sent amounts0 keysetId counter :
  keeps seed sent counter (createBlindedMessages amounts0 keysetId counter).
Proof.
  unfold createBlindedMessages. apply keeps_this_bind; intros wlt Hseed.
  destruct counter as [c|], (_seed wlt) as [s|] eqn:Es;
    try (apply keeps_bind; [apply keeps_with_rng | intros [[bms ss] rs0]; apply keeps_ret]).
  apply keeps_throw. intros _. split; [discriminate | congruence].
Qed.

Lemma keeps_createRandomBlindedMessages seed sent amount keyset preference counter :
  keeps seed sent counter (createRandomBlindedMessages amount keyset preference counter).
Proof.
  unfold createRandomBlindedMessages.
  apply keeps_bind; [apply keeps_lift, splitAmount_error | intros l].
  apply keeps_createBlindedMessages.
Qed.

Lemma keeps_createBlankOutputs seed sent feeReserve keysetId counter :
  keeps seed sent counter (createBlankOutputs feeReserve keysetId counter).
Proof. unfold createBlankOutputs. apply keeps_createBlindedMessages. Qed.

Lemma keeps_createSplitPayload seed sent amount proofsToSend keyset preference counter :
  keeps seed sent counter
    (createSplitPayload amount proofsToSend keyset preference counter).
Proof.
  unfold createSplitPayload.
  apply keeps_bind; [apply keeps_createRandomBlindedMessages | intros keep].
  apply keeps_this_bind; intros wlt Hseed.
  apply keeps_bind; [|intros sendBM; apply keeps_ret].
  eapply keeps_counter; [|apply keeps_createRandomBlindedMessages].
  destruct (_seed wlt), counter as [c|]; try congruence.
Qed.

Lemma keeps_send seed sent amount proofs preference counter :
  keeps seed sent counter (send mint amount proofs preference counter).
Proof.
  unfold send. apply keeps_bind; [apply keeps_initKeys | intros keyset].
  destruct (fold_left _ proofs _) as [[amountAvailable proofsToSend] proofsToKeep].
  destruct (amountAvailable <? _);
    [apply keeps_throw, planning_error_other; reflexivity |].
  destruct (_ || _); [|apply keeps_ret].
  cbv zeta. unfold splitReceive.
  apply keeps_bind; [apply keeps_createSplitPayload | intros [payload bt]].
  apply keeps_bind; [apply keeps_request | intros signatures].
  apply keeps_bind; [apply keeps_lift, constructProofs_error | intros proofs0].
  destruct (fold_left _ proofs0 _) as [[c0 k0] s0]. apply keeps_ret.
Qed.

Lemma keeps_receiveTokenEntry_try seed sent tokenEntry preference counter :
  keeps seed sent counter (receiveTokenEntry_try mint tokenEntry preference counter).
Proof.
  unfold receiveTokenEntry_try. cbv zeta.
  apply keeps_bind; [apply keeps_initKeys | intros keyset].
  apply keeps_bind; [apply keeps_createSplitPayload | intros [payload bt]].
  apply keeps_bind; [apply keeps_request | intros signatures].
  apply keeps_bind; [apply keeps_lift, constructProofs_error | intros proofs0].
  apply keeps_ret.
Qed.

Lemma keeps_meltTokens seed sent meltQuote proofsToSend keysetId counter :
  keeps seed sent counter (meltTokens mint meltQuote proofsToSend keysetId counter).
Proof.
  unfold meltTokens. apply keeps_this_bind; intros wlt Hseed.
  apply keeps_bind; [apply keeps_createBlankOutputs | intros bt].
  cbv zeta. apply keeps_bind; [apply keeps_request | intros resp].
  apply keeps_bind; [|intros change0; apply keeps_ret].
  destruct (change resp) as [ch|]; [|apply keeps_ret].
  apply keeps_bind; [apply keeps_getKeys | intros keys].
  apply keeps_lift, constructProofs_error.
Qed.

Lemma keeps_restore seed sent start count keysetId :
  keeps seed sent (Some start) (restore mint start count keysetId).
Proof.
  unfold restore. apply keeps_this_bind; intros wlt Hseed.
  destruct (_seed wlt) as [s|] eqn:Es.
  - apply keeps_bind; [apply keeps_createBlindedMessages | intros bt].
    apply keeps_bind; [apply keeps_request | intros resp]. cbv zeta.
    apply keeps_bind; [apply keeps_getKeys | intros keys].
    apply keeps_lift, constructProofs_error.
  - apply keeps_throw. intros _. split; [discriminate | congruence].
Qed.
End Keeps.

(* --------------------------------------------------------------------- *)
(* The shape of a plan, in every mode                                    *)
(* --------------------------------------------------------------------- *)

Section PlanShape.
Context `{Curve} `{Derivation} `{Entropy} `{TokenFormat}.

Lemma createBlindedMessages_shape amounts0 keysetId counter (w w' : World) out :
  createBlindedMessages amounts0 keysetId counter w = (inr out, w') ->
  amounts out = amounts0 /\
  List.map bm_amount (blindedMessages out) = amounts0 /\
  Forall (fun bm => bm_id bm = keysetId) (blindedMessages out) /\
  List.length (secrets out) = List.length amounts0 /\
  List.length (rs out) = List.length amounts0 /\
  wallet w' = wallet w /\ calls w' = calls w.
Proof.
  rewrite createBlindedMessages_unfold.
  pose proof (createBlindedMessages_from_shape (_seed (wallet w)) keysetId counter
                amounts0 0 (rng w)) as Hshape.
  cbv zeta in Hshape. destruct Hshape as (Ha & Hid & Hs & Hr).
  destruct counter as [c|], (_seed (wallet w)) as [s|]; try discriminate;
    intros [= <- <-]; cbn; auto 10.
Qed.

Lemma createRandomBlindedMessages_shape amount keyset preference counter (w w' : World) out :
  createRandomBlindedMessages amount keyset preference counter w = (inr out, w') ->
  splitAmount amount preference = inr (amounts out) /\
  List.map bm_amount (blindedMessages out) = amounts out /\
  Forall (fun bm => bm_id bm = keys_id keyset) (blindedMessages out) /\
  wallet w' = wallet w /\ calls w' = calls w.
Proof.
  unfold createRandomBlindedMessages, bind, lift.
  destruct (splitAmount amount preference) as [e|l]; [discriminate |].
  intros Hrun. apply createBlindedMessages_shape in Hrun.
  destruct Hrun as (Ha & Hm & Hid & _ & _ & Hw & Hc). rewrite Ha. auto.
Qed.

(* A split payload lists the keep outputs, the default split of what is
   left over, before the send outputs. *)
Lemma createSplitPayload_shape amount proofsToSend keyset preference counter
    (w w' : World) payload out :
  createSplitPayload amount proofsToSend keyset preference counter w
    = (inr (payload, out), w') ->
  exists sendAmounts,
    splitAmount amount preference = inr sendAmounts /\
    amounts out = default_split (total_amount proofsToSend - amount) ++ sendAmounts /\
    List.map bm_amount (blindedMessages out) = amounts out /\
    Forall (fun bm => bm_id bm = keys_id keyset) (blindedMessages out) /\
    payload = mkSplitPayload proofsToSend (blindedMessages out) /\
    wallet w' = wallet w /\ calls w' = calls w.
Proof.
  unfold createSplitPayload. unfold bind at 1.
  destruct (createRandomBlindedMessages _ keyset None counter w) as [[e|keep] w1] eqn:Ekeep;
    [discriminate |].
  apply createRandomBlindedMessages_shape in Ekeep.
  destruct Ekeep as (Hka & Hkm & Hkid & Hkw & Hkc).
  unfold bind at 1. unfold this at 1. cbv zeta. unfold bind.
  match goal with
  | |- context [createRandomBlindedMessages amount keyset preference ?c w1] =>
      destruct (createRandomBlindedMessages amount keyset preference c w1)
        as [[e|sendBM] w2] eqn:Esend; [discriminate |]
  end.
  apply createRandomBlindedMessages_shape in Esend.
  destruct Esend as (Hsa & Hsm & Hsid & Hsw & Hsc).
  unfold ret. intros [= <- <- <-]. exists (amounts sendBM).
  cbn [amounts blindedMessages]. rewrite List.map_app, Hkm, Hsm.
  rewrite splitAmount_default in Hka. injection Hka as Hka.
  repeat split; try congruence.
  apply Forall_app; split; assumption.
Qed.

Lemma constructProofs_amounts promises rs0 secrets0 keyset proofs :
  constructProofs promises rs0 secrets0 keyset = inr proofs ->
  List.map proof_amount proofs = List.map sig_amount promises.
Proof.
  revert rs0 secrets0 proofs; induction promises as [|p promises IH];
    intros rs0 secrets0 proofs.
  - destruct rs0, secrets0; simpl; intros [= <-]; reflexivity.
  - destruct rs0 as [|r rs0]; [discriminate |].
    destruct secrets0 as [|s secrets0]; [discriminate |].
    cbn [constructProofs].
    destruct (keys_keys keyset !! sig_amount p); [|discriminate].
    destruct (pointFromHex (sig_C_ p)); [|discriminate].
    destruct (pointFromHex s0); [|discriminate].
    destruct (constructProofs promises rs0 secrets0 keyset) eqn:E; [discriminate |].
    intros [= <-]. cbn. f_equal. eapply IH; eauto.
Qed.
End PlanShape.

(* --------------------------------------------------------------------- *)
(* The two loops of send                                                 *)
(* --------------------------------------------------------------------- *)

Section SendLoops.
Context `{Curve} `{Derivation} `{Entropy} `{TokenFormat}.

Lemma select_covered amount proofs a0 ts0 tk0 :
  amount <= a0 ->
  fold_left (select_step amount) proofs (a0, ts0, tk0) = (a0, ts0, tk0 ++ proofs).
Proof.
  intros Hle. revert tk0; induction proofs as [|p proofs IH]; intros tk0; simpl.
  - rewrite List.app_nil_r. reflexivity.
  - destruct (N.leb_spec amount a0); [|lia].
    rewrite IH, <- List.app_assoc. reflexivity.
Qed.

(* The selected proofs are a prefix of the input, the shortest one that
   covers the amount if there is one; the rest is kept untouched. *)
Lemma select_prefix amount proofs a0 ts0 tk0 :
  exists s k,
    proofs = s ++ k /\
    fold_left (select_step amount) proofs (a0, ts0, tk0)
      = (a0 + total_amount s, ts0 ++ s, tk0 ++ k).
Proof.
  revert a0 ts0; induction proofs as [|p proofs IH]; intros a0 ts0.
  - exists [], []. simpl. rewrite !List.app_nil_r, N.add_0_r. auto.
  - destruct (N.leb_spec amount a0) as [Hle | Hlt].
    + exists [], (p :: proofs). rewrite select_covered by exact Hle.
      rewrite List.app_nil_r. unfold total_amount. simpl. rewrite N.add_0_r. auto.
    + cbn [fold_left select_step].
      destruct (N.leb_spec amount a0); [lia |].
      destruct (IH (a0 + proof_amount p) (ts0 ++ [p])) as (s & k & Hsk & Hfold).
      exists (p :: s), k. split; [simpl; congruence |].
      rewrite Hfold, <- List.app_assoc.
      change (p :: s) with ([p] ++ s). rewrite total_amount_app.
      unfold total_amount at 2. simpl.
      replace (a0 + proof_amount p + total_amount s)
        with (a0 + (proof_amount p + total_amount s)) by lia.
      reflexivity.
Qed.

Lemma keep_reached amountKeep proofs c0 k0 s0 :
  amountKeep <= c0 ->
  fold_left (keep_step amountKeep) proofs (c0, k0, s0) = (c0, k0, s0 ++ proofs).
Proof.
  intros Hle. revert s0; induction proofs as [|p proofs IH]; intros s0; simpl.
  - rewrite List.app_nil_r. reflexivity.
  - destruct (N.ltb_spec c0 amountKeep); [lia |].
    rewrite IH, <- List.app_assoc. reflexivity.
Qed.

(* When the proofs come back with the planned amounts, the second loop
   cuts them exactly between the keep group and the send group. *)
Lemma keep_exact amountKeep keepAmounts sendAmounts :
  Forall (fun a => 0 < a) keepAmounts ->
  forall proofs c0 k0,
    List.map proof_amount proofs = keepAmounts ++ sendAmounts ->
    c0 + sumN keepAmounts = amountKeep ->
    exists k s,
      proofs = k ++ s /\
      List.map proof_amount k = keepAmounts /\
      List.map proof_amount s = sendAmounts /\
      fold_left (keep_step amountKeep) proofs (c0, k0, []) = (amountKeep, k0 ++ k, s).
Proof.
  induction 1 as [|a keepAmounts Ha Hrest IH]; intros proofs c0 k0 Hmap Hsum.
  - simpl in Hmap, Hsum. rewrite N.add_0_r in Hsum. subst c0.
    exists [], proofs. rewrite keep_reached by lia.
    rewrite List.app_nil_r. auto.
  - destruct proofs as [|p proofs]; [discriminate |].
    simpl in Hmap. injection Hmap as Hp Hmap. simpl in Hsum.
    cbn [fold_left keep_step].
    destruct (N.ltb_spec c0 amountKeep); [|lia].
    destruct (IH proofs (c0 + proof_amount p) (k0 ++ [p]) Hmap ltac:(lia))
      as (k & s & Hks & Hk & Hs & Hfold).
    exists (p :: k), s. rewrite Hfold, <- List.app_assoc.
    repeat split; simpl; congruence.
Qed.
End SendLoops.

(* --------------------------------------------------------------------- *)
(* meltTokens, step by step                                              *)
(* --------------------------------------------------------------------- *)

Section MeltSteps.
Context `{Curve} `{Derivation} `{Entropy} `{TokenFormat}.
Variable mint : CashuMint.

Lemma keeps_run {A} seed sent counter (m : M A) (w : World) :
  keeps seed sent counter m -> Inv seed sent w -> Inv seed sent (snd (m w)).
Proof.
  intros Hm HI. specialize (Hm w HI). destruct (m w) as [[e|a] w']; [apply Hm | exact Hm].
Qed.

(* A request is the first thing a computation sends when it starts with
   it. *)
Lemma request_first {A B} (c : MintCall) (answer : list MintCall -> MintFailure + A)
    (k : A -> M B) (w : World) :
  (forall a seed sent, keeps seed sent None (k a)) ->
  exists more, calls (snd (bind (request c answer) k w)) = calls w ++ c :: more.
Proof.
  intros Hk. unfold bind, request.
  destruct (answer (calls w)) as [f|a].
  - exists []. reflexivity.
  - set (w2 := mkWorld (wallet w) (rng w) (calls w ++ [c])).
    destruct (keeps_run _ _ None (k a) w2 (Hk a _ _) (Inv_refl w2)) as [_ [more Hmore]].
    exists more. rewrite Hmore. cbn [w2 calls]. rewrite <- List.app_assoc. reflexivity.
Qed.

(* meltTokens plans the blank outputs, sends the melt request, and what
   it does afterwards keeps the invariant. *)
Lemma meltTokens_plan_first :
  exists k : BlindedTransaction -> MeltResponse -> M MeltTokensResponse,
    (forall bt resp seed sent, keeps seed sent None (k bt resp)) /\
    forall meltQuote proofsToSend keysetId counter (w : World),
      meltTokens mint meltQuote proofsToSend keysetId counter w =
      match createBlankOutputs (fee_reserve meltQuote)
              (match keysetId with
               | Some id => id
               | None => _keysetId (wallet w)
               end) counter w with
      | (inl e, w1) => (inl e, w1)
      | (inr bt, w1) =>
          let meltPayload :=
            mkMeltPayload (quote meltQuote) proofsToSend (blindedMessages bt) in
          bind (request (CallMelt meltPayload) (fun h => mint_melt mint h meltPayload))
            (k bt) w1
      end.
Proof.
  eexists (fun bt meltResponse =>
             bind (match change meltResponse with
                   | Some ch =>
                       bind (getKeys mint ch None)
                         (fun keys => lift (constructProofs ch (rs bt) (secrets bt) keys))
                   | None => ret []
                   end)
               (fun change0 =>
                  ret (mkMeltTokensResponse
                         (match paid meltResponse with
                          | Some b => b
                          | None => false
                          end) (payment_preimage meltResponse) change0))).
  split.
  - intros bt resp seed sent. apply keeps_bind; [|intros change0; apply keeps_ret].
    destruct (change resp) as [ch|]; [|apply keeps_ret].
    apply keeps_bind; [apply keeps_getKeys | intros keys].
    apply keeps_lift, constructProofs_error.
  - intros meltQuote proofsToSend keysetId counter w.
    unfold meltTokens. unfold bind at 1. unfold this at 1. unfold bind at 1.
    destruct (createBlankOutputs _ _ counter w) as [[e|bt] w1]; reflexivity.
Qed.

End MeltSteps.

(* --------------------------------------------------------------------- *)
(* receive, entry by entry                                               *)
(* --------------------------------------------------------------------- *)

Section ReceiveSteps.
Context `{Curve} `{Derivation} `{Entropy} `{TokenFormat}.
Variable mint : CashuMint.

(* receiveTokenEntry turns whatever its try block throws into
   proofsWithError. *)
Lemma receiveTokenEntry_caught tokenEntry preference counter (w w1 : World) err :
  receiveTokenEntry_try mint tokenEntry preference counter w = (inl err, w1) ->
  receiveTokenEntry mint tokenEntry preference counter w =
  (inr (mkReceiveTokenEntryResponse []
          (match entry_proofs tokenEntry with
           | [] => None
           | _ :: _ => Some (entry_proofs tokenEntry)
           end)), w1).
Proof.
  intros Htry. unfold receiveTokenEntry, bind, try_catch. rewrite Htry. reflexivity.
Qed.

Lemma receiveTokenEntry_returned tokenEntry preference counter (w w1 : World) proofs bad :
  receiveTokenEntry_try mint tokenEntry preference counter w = (inr (proofs, bad), w1) ->
  bad = [] /\
  receiveTokenEntry mint tokenEntry preference counter w =
  (inr (mkReceiveTokenEntryResponse proofs None), w1).
Proof.
  intros Htry.
  assert (bad = []) as ->.
  { revert Htry. unfold receiveTokenEntry_try. cbv zeta. unfold bind at 1.
    destruct (initKeys mint w) as [[e|keyset] w0]; [discriminate |].
    unfold bind at 1.
    destruct (createSplitPayload _ _ keyset _ counter w0) as [[e|[payload bt]] w2];
      [discriminate |].
    unfold bind at 1. destruct (request _ _ w2) as [[e|signatures] w3]; [discriminate |].
    unfold bind, lift, ret.
    destruct (constructProofs _ _ _ _); [discriminate |]. intros [= _ <- _]. reflexivity. }
  split; [reflexivity |].
  unfold receiveTokenEntry, bind, try_catch. rewrite Htry. reflexivity.
Qed.

(* One round of the loop of receive never throws; an entry whose try
   block threw counts as an entry with errors. *)
Lemma receive_entry_total tokenEntry preference counter (w : World) :
  exists r w', receive_entry mint tokenEntry preference counter w = (inr r, w').
Proof.
  unfold receive_entry, try_catch, bind.
  destruct (receiveTokenEntry mint tokenEntry preference counter w) as [[e|resp] w1].
  - eexists _, _. reflexivity.
  - destruct (rte_proofsWithError resp) as [[|p bad]|]; eexists _, _; reflexivity.
Qed.

Lemma receive_entry_caught tokenEntry preference counter (w w1 : World) err :
  entry_proofs tokenEntry <> [] ->
  receiveTokenEntry_try mint tokenEntry preference counter w = (inl err, w1) ->
  receive_entry mint tokenEntry preference counter w = (inr (inl tokenEntry), w1).
Proof.
  intros Hproofs Htry. unfold receive_entry, try_catch, bind.
  rewrite (receiveTokenEntry_caught _ _ _ _ _ _ Htry). cbn [rte_proofsWithError].
  destruct (entry_proofs tokenEntry); [contradiction | reflexivity].
Qed.

Lemma receive_entry_returned tokenEntry preference counter (w w1 : World) proofs bad :
  receiveTokenEntry_try mint tokenEntry preference counter w = (inr (proofs, bad), w1) ->
  receive_entry mint tokenEntry preference counter w
    = (inr (inr (mkTokenEntry (entry_mint tokenEntry) proofs)), w1).
Proof.
  intros Htry. unfold receive_entry, try_catch, bind.
  destruct (receiveTokenEntry_returned _ _ _ _ _ _ _ Htry) as [_ ->]. reflexivity.
Qed.

Lemma receive_entries_total decodedToken preference counter (w : World) :
  exists oks bads w',
    receive_entries mint decodedToken preference counter w = (inr (oks, bads), w').
Proof.
  revert w; induction decodedToken as [|tokenEntry rest IH]; intros w.
  - eexists _, _, _. reflexivity.
  - cbn [receive_entries]. destruct (entry_proofs tokenEntry) as [|p ps]; [apply IH |].
    unfold bind at 1.
    destruct (receive_entry_total tokenEntry preference counter w) as (r & w1 & ->).
    unfold bind.
    destruct (IH w1) as (oks & bads & w2 & ->).
    destruct r; eexists _, _, _; reflexivity.
Qed.

(* The loop over a token that is split in two is the loop over the first
   part followed by the loop over the second part. *)
Lemma receive_entries_app l1 l2 preference counter (w w1 w2 : World) oks1 bads1 oks2 bads2 :
  receive_entries mint l1 preference counter w = (inr (oks1, bads1), w1) ->
  receive_entries mint l2 preference counter w1 = (inr (oks2, bads2), w2) ->
  receive_entries mint (l1 ++ l2) preference counter w
    = (inr (oks1 ++ oks2, bads1 ++ bads2), w2).
Proof.
  revert w oks1 bads1; induction l1 as [|tokenEntry rest IH]; intros w oks1 bads1.
  - cbn. intros [= <- <- <-]. auto.
  - cbn [receive_entries List.app].
    destruct (entry_proofs tokenEntry) as [|p ps]; [apply IH |].
    unfold bind at 1 3.
    destruct (receive_entry_total tokenEntry preference counter w) as (r & w0 & ->).
    unfold bind at 1 2.
    destruct (receive_entries_total rest preference counter w0) as (oks & bads & w' & Hrest).
    rewrite Hrest. intros Hfirst Hsecond.
    assert (w' = w1) as -> by (destruct r; injection Hfirst; auto).
    rewrite (IH _ _ _ Hrest Hsecond).
    destruct r; injection Hfirst as <- <-; reflexivity.
Qed.

Lemma receive_unfold t preference counter (w : World) :
  receive mint (inr t) preference counter w =
  match receive_entries mint (token t) preference counter w with
  | (inr (tokenEntries, tokenEntriesWithError), w') =>
      (inr (mkReceiveResponse (mkToken tokenEntries None)
              (match tokenEntriesWithError with
               | [] => None
               | _ :: _ => Some (mkToken tokenEntriesWithError None)
               end)), w')
  | (inl e, w') => (inl e, w')
  end.
Proof.
  unfold receive. unfold bind at 1. unfold ret at 1. unfold bind.
  destruct (receive_entries mint (token t) preference counter w) as [[e|[oks bads]] w'];
    reflexivity.
Qed.
End ReceiveSteps.

(* --------------------------------------------------------------------- *)
(* A counter on a wallet without a seed                                  *)
(* --------------------------------------------------------------------- *)

Section WithoutSeed.
Context `{Curve} `{Derivation} `{Entropy} `{TokenFormat}.
Variable mint : CashuMint.

Lemma createBlindedMessages_without_seed amounts0 keysetId c (w : World) :
  _seed (wallet w) = None ->
  createBlindedMessages amounts0 keysetId (Some c) w = (inl NoSeed, w).
Proof. intros Hseed. rewrite createBlindedMessages_unfold, Hseed. reflexivity. Qed.

Lemma createBlindedMessages_returns amounts0 keysetId counter (w : World) :
  counter = None \/ _seed (wallet w) <> None ->
  exists out w', createBlindedMessages amounts0 keysetId counter w = (inr out, w').
Proof.
  intros Hmode. rewrite createBlindedMessages_unfold.
  destruct counter as [c|], (_seed (wallet w)) as [s|]; try (eexists _, _; reflexivity).
  destruct Hmode; congruence.
Qed.

Lemma createSplitPayload_without_seed amount proofsToSend keyset preference c (w : World) :
  _seed (wallet w) = None ->
  createSplitPayload amount proofsToSend keyset preference (Some c) w = (inl NoSeed, w).
Proof.
  intros Hseed. unfold createSplitPayload. unfold bind at 1.
  unfold createRandomBlindedMessages at 1. unfold bind at 1. unfold lift at 1.
  rewrite splitAmount_default, createBlindedMessages_without_seed by exact Hseed.
  reflexivity.
Qed.

Lemma meltTokens_without_seed meltQuote proofsToSend keysetId c (w : World) :
  _seed (wallet w) = None ->
  meltTokens mint meltQuote proofsToSend keysetId (Some c) w = (inl NoSeed, w).
Proof.
  intros Hseed. destruct (meltTokens_plan_first mint) as (k & _ & ->).
  unfold createBlankOutputs.
  rewrite createBlindedMessages_without_seed by exact Hseed. reflexivity.
Qed.

Lemma restore_without_seed start count keysetId (w : World) :
  _seed (wallet w) = None ->
  restore mint start count keysetId w = (inl RestoreWithoutSeed, w).
Proof. intros Hseed. unfold restore, bind, this. rewrite Hseed. reflexivity. Qed.

Lemma send_without_seed amount proofs preference c (w : World) :
  _seed (wallet w) = None ->
  send mint amount proofs preference (Some c) w =
  match initKeys mint w with
  | (inl e, w1) => (inl e, w1)
  | (inr _, w1) =>
      let a := match preference with
               | Some p => preference_total p
               | None => amount
               end in
      let '(amountAvailable, proofsToSend, proofsToKeep) :=
        fold_left (select_step a) proofs (0, [], []) in
      if amountAvailable <? a then (inl NotEnoughFunds, w1)
      else if (a <? amountAvailable) || (match preference with
                                         | Some _ => true
                                         | None => false
                                         end)
           then (inl NoSeed, w1)
           else (inr (mkSendResponse proofsToKeep proofsToSend), w1)
  end.
Proof.
  intros Hseed. unfold send. unfold bind at 1.
  pose proof (keeps_run _ _ None (initKeys mint) w (keeps_initKeys mint _ _ _) (Inv_refl w))
    as [Hseed1 _].
  destruct (initKeys mint w) as [[e|keyset] w1]; [reflexivity |].
  cbn [snd] in Hseed1. rewrite Hseed in Hseed1. cbv zeta.
  destruct (fold_left _ proofs _) as [[amountAvailable proofsToSend] proofsToKeep].
  destruct (amountAvailable <? _); [reflexivity |].
  destruct (_ || _); [|reflexivity].
  unfold splitReceive. unfold bind at 1.
  rewrite createSplitPayload_without_seed by exact Hseed1. reflexivity.
Qed.

Lemma receiveTokenEntry_try_without_seed tokenEntry preference c (w : World) :
  _seed (wallet w) = None ->
  exists err w1,
    receiveTokenEntry_try mint tokenEntry preference (Some c) w = (inl err, w1) /\
    _seed (wallet w1) = None.
Proof.
  intros Hseed. unfold receiveTokenEntry_try. cbv zeta. unfold bind at 1.
  pose proof (keeps_run _ _ None (initKeys mint) w (keeps_initKeys mint _ _ _) (Inv_refl w))
    as [Hseed1 _].
  rewrite Hseed in Hseed1.
  destruct (initKeys mint w) as [[e|keyset] w1]; [eauto |].
  cbn [snd] in Hseed1. unfold bind at 1.
  rewrite createSplitPayload_without_seed by exact Hseed1. eauto.
Qed.

(* Every entry with proofs ends among the entries with errors. *)
Lemma receive_entries_without_seed decodedToken preference c (w : World) :
  _seed (wallet w) = None ->
  exists w',
    receive_entries mint decodedToken preference (Some c) w
      = (inr ([], List.filter (fun e => match entry_proofs e with
                                        | [] => false
                                        | _ :: _ => true
                                        end) decodedToken), w').
Proof.
  revert w; induction decodedToken as [|tokenEntry rest IH]; intros w Hseed.
  - eexists. reflexivity.
  - cbn [receive_entries List.filter].
    destruct (entry_proofs tokenEntry) as [|p ps] eqn:Eproofs; [apply IH; exact Hseed |].
    destruct (receiveTokenEntry_try_without_seed tokenEntry preference c w Hseed)
      as (err & w1 & Htry & Hseed1).
    unfold bind at 1.
    rewrite (receive_entry_caught mint tokenEntry preference (Some c) w w1 err)
      by (try rewrite Eproofs; auto; discriminate).
    unfold bind. destruct (IH w1 Hseed1) as (w' & ->). eexists. reflexivity.
Qed.

(* The only error receive lets through is the one of decoding. *)
Lemma receive_error token0 preference counter (w w' : World) e :
  receive mint token0 preference counter w = (inl e, w') -> e = MalformedToken.
Proof.
  unfold receive. destruct token0 as [encoded|t].
  - destruct (getDecodedToken encoded) as [t|].
    + unfold bind at 1. unfold ret at 1. unfold bind.
      destruct (receive_entries_total mint (token (cleanToken t)) preference counter w)
        as (oks & bads & w1 & ->). discriminate.
    + unfold bind, throw. intros [= <- _]. reflexivity.
  - unfold bind at 1. unfold ret at 1. unfold bind.
    destruct (receive_entries_total mint (token t) preference counter w)
      as (oks & bads & w1 & ->). discriminate.
Qed.

(* What keeps says about the error of one run. *)
Lemma keeps_error {A} counter (m : M A) (w w' : World) e :
  keeps (_seed (wallet w)) (calls w) counter m ->
  m w = (inl e, w') ->
  counter = None \/ _seed (wallet w) <> None ->
  is_no_seed_error e = false.
Proof.
  intros Hm Hrun Hmode. specialize (Hm w (Inv_refl w)). rewrite Hrun in Hm.
  destruct Hm as [_ He]. destruct (is_no_seed_error e) eqn:E; [|reflexivity].
  destruct (He E) as [Hc Hs]. destruct Hmode; congruence.
Qed.
End WithoutSeed.

(* --------------------------------------------------------------------- *)
(* Math.ceil(Math.log2(n)) in binary64                                   *)
(* --------------------------------------------------------------------- *)

(* Bernoulli's inequality, and a bound from above of the same kind. *)
Lemma pow_add_lower a j n : a ^ n * (a + n * j) <= (a + j) ^ n * a.
Proof.
  induction n as [|n IH] using N.peano_ind.
  - rewrite !N.pow_0_r. lia.
  - rewrite !N.pow_succ_r'.
    generalize dependent (a ^ n). generalize dependent ((a + j) ^ n). intros Y X IH.
    apply N.le_trans with ((a + j) * (X * (a + n * j))).
    + replace (a * X * (a + N.succ n * j)) with (X * (a * (a + N.succ n * j))) by lia.
      replace ((a + j) * (X * (a + n * j))) with (X * ((a + j) * (a + n * j))) by lia.
      apply N.mul_le_mono_l. nia.
    + replace ((a + j) * Y * a) with ((a + j) * (Y * a)) by lia.
      apply N.mul_le_mono_l. exact IH.
Qed.

Lemma pow_add_upper a j n :
  2 * n * j <= a -> (a + j) ^ n * a <= a ^ n * (a + 2 * n * j).
Proof.
  induction n as [|n IH] using N.peano_ind; intros Hn.
  - rewrite !N.pow_0_r. lia.
  - assert (2 * n * j <= a) as Hn' by nia. specialize (IH Hn').
    rewrite !N.pow_succ_r'.
    generalize dependent (a ^ n). generalize dependent ((a + j) ^ n). intros Y X IH.
    apply N.le_trans with ((a + j) * (X * (a + 2 * n * j))).
    + replace ((a + j) * Y * a) with ((a + j) * (Y * a)) by lia.
      apply N.mul_le_mono_l. exact IH.
    + replace ((a + j) * (X * (a + 2 * n * j))) with (X * ((a + j) * (a + 2 * n * j)))
        by lia.
      replace (a * X * (a + 2 * N.succ n * j)) with (X * (a * (a + 2 * N.succ n * j)))
        by lia.
      apply N.mul_le_mono_l.
      assert (j * (2 * n * j + 2 * j) <= j * a) by (apply N.mul_le_mono_l; lia).
      nia.
Qed.

Lemma pow_add_at_least_double a j n :
  0 < a -> a <= n * j -> 2 * a ^ n <= (a + j) ^ n.
Proof.
  intros Ha Hj. pose proof (pow_add_lower a j n) as Hlow.
  generalize dependent (a ^ n). generalize dependent ((a + j) ^ n). intros Y X Hlow.
  apply (N.mul_le_mono_pos_r _ _ a Ha).
  apply N.le_trans with (X * (a + n * j)); [|exact Hlow].
  replace (2 * X * a) with (X * (a + a)) by lia.
  apply N.mul_le_mono_l. lia.
Qed.

Lemma pow_add_below_double a j n :
  0 < j -> 0 < n -> 2 * n * j <= a -> (a + j) ^ n < 2 * a ^ n.
Proof.
  intros Hj Hn Hle.
  destruct (N.zero_or_succ n) as [-> | [n' ->]]; [lia |].
  assert (2 * n' * j + 2 * j <= a) as Hn' by lia.
  assert (0 < a) as Ha by lia.
  pose proof (pow_add_upper a j n' ltac:(lia)) as Hup.
  rewrite !N.pow_succ_r'.
  assert (0 < a ^ n') as HX by (apply N.neq_0_lt_0, N.pow_nonzero; lia).
  generalize dependent (a ^ n'). generalize dependent ((a + j) ^ n'). intros Y X Hup HX.
  apply (N.mul_lt_mono_pos_r a _ _ Ha).
  apply N.le_lt_trans with ((a + j) * (X * (a + 2 * n' * j))).
  - replace ((a + j) * Y * a) with ((a + j) * (Y * a)) by lia.
    apply N.mul_le_mono_l. exact Hup.
  - replace ((a + j) * (X * (a + 2 * n' * j))) with (X * ((a + j) * (a + 2 * n' * j)))
      by lia.
    replace (2 * (a * X) * a) with (X * (2 * a * a)) by lia.
    apply N.mul_lt_mono_pos_l; [exact HX |].
    set (t := 2 * n' * j) in *.
    assert (a * (t + 2 * j) <= a * a) by (apply N.mul_le_mono_l; lia).
    assert (j * (t + 2 * j) <= j * a) by (apply N.mul_le_mono_l; lia).
    nia.
Qed.

(* The test of the model is the comparison with the midpoint. *)
Lemma log2_rounds_down_nearest n k :
  2 ^ k < n -> (log2_rounds_down n k = true <-> log2_below_midpoint n k).
Proof.
  intros Hn. unfold log2_rounds_down, log2_below_midpoint.
  set (m := 53 - N.log2 k).
  assert (0 < 2 ^ k) as Ha by (apply N.neq_0_lt_0, N.pow_nonzero; lia).
  assert (0 < 2 ^ m) as Hm by (apply N.neq_0_lt_0, N.pow_nonzero; lia).
  assert (2 ^ (k * 2 ^ m + 1) = 2 * (2 ^ k) ^ (2 ^ m)) as ->.
  { rewrite N.pow_add_r, N.pow_mul_r, N.pow_1_r. apply N.mul_comm. }
  assert (n = 2 ^ k + (n - 2 ^ k)) as Hsum by lia.
  assert (0 < n - 2 ^ k) as Hj by lia.
  generalize dependent (n - 2 ^ k). intros j Hsum Hj. cbv zeta.
  generalize dependent (2 ^ m). intros e He.
  generalize dependent (2 ^ k). intros a Hn Ha Hsum.
  subst n. clear Hn.
  destruct (N.leb_spec a (j * e)) as [Hup | Hnup].
  - pose proof (pow_add_at_least_double a j e Ha ltac:(lia)) as Hdbl.
    generalize dependent ((a + j) ^ e). generalize dependent (a ^ e). intros.
    split; [discriminate | lia].
  - destruct (N.leb_spec (2 * j * e) a) as [Hdown | Hmid].
    + pose proof (pow_add_below_double a j e Hj He ltac:(lia)) as Hdbl.
      split; [intros _; exact Hdbl | reflexivity].
    + apply N.ltb_lt.
Qed.

(* Up to 2^49 the rounded logarithm has the ceiling of the exact one. *)
Lemma Math_ceil_log2_exact n :
  0 < n -> n <= 2 ^ 49 -> Math_ceil_log2 n = Finite (Z.of_N (N.log2_up n)).
Proof.
  intros Hpos Hle. unfold Math_ceil_log2. destruct n as [|p]; [lia |].
  set (n := N.pos p) in *. cbv zeta.
  destruct (N.log2_spec n Hpos) as [Hlow Hhigh].
  destruct (N.eqb_spec n (2 ^ N.log2 n)) as [Epow | Enpow].
  - rewrite Epow at 2. rewrite N.log2_up_pow2 by apply N.le_0_l. reflexivity.
  - assert (N.log2_up n = N.log2 n + 1) as Hup.
    { pose proof (N.le_log2_up_succ_log2 n). pose proof (N.le_log2_log2_up n).
      destruct (N.eq_dec (N.log2 n) (N.log2_up n)) as [E | E]; [|lia].
      apply (N.log2_log2_up_exact n Hpos) in E. destruct E as [b Eb].
      exfalso. apply Enpow. rewrite Eb at 1. rewrite Eb, N.log2_pow2 by apply N.le_0_l.
      reflexivity. }
    rewrite Hup.
    assert (N.log2 n <= 48) as Hk.
    { assert (N.log2 n < 49); [|lia].
      apply N.log2_lt_pow2; [exact Hpos |].
      destruct (N.eq_dec n (2 ^ 49)) as [E | E]; [|lia].
      exfalso. apply Enpow. rewrite E at 2. rewrite N.log2_pow2 by lia. exact E. }
    assert (log2_rounds_down n (N.log2 n) = false) as ->; [|reflexivity].
    unfold log2_rounds_down. cbv zeta.
    assert (N.log2 (N.log2 n) <= 5) as Hlog.
    { destruct (N.eq_dec (N.log2 n) 0) as [-> | Hk0]; [cbn; lia |].
      assert (N.log2 (N.log2 n) < 6); [|lia].
      apply N.log2_lt_pow2; [lia |]. change (2 ^ 6) with 64. lia. }
    assert (2 ^ N.log2 n <= 2 ^ (53 - N.log2 (N.log2 n))) as Hpow
      by (apply N.pow_le_mono_r; lia).
    assert (1 <= n - 2 ^ N.log2 n) as Hj by lia.
    generalize dependent (2 ^ (53 - N.log2 (N.log2 n))).
    generalize dependent (2 ^ N.log2 n). intros a Hlow Enpow Hj e Hpow.
    destruct (N.leb_spec a ((n - a) * e)); [reflexivity | nia].
Qed.

(* ===================================================================== *)
(* Output planning                                                       *)
(* ===================================================================== *)

Lemma log2_up_is_ceil fee : 0 < fee -> is_ceil_log2 fee (N.log2_up fee).
Proof.
  intros Hpos. destruct (N.eq_dec fee 1) as [-> | Hne].
  - split; [reflexivity | intros j _; apply N.le_0_l].
  - assert (1 < fee) as Hgt by lia.
    destruct (N.log2_up_spec fee Hgt) as [Hlow Hhigh].
    split; [exact Hhigh |].
    intros j Hj. destruct (N.le_gt_cases (N.log2_up fee) j) as [Hle | Hlt]; [exact Hle |].
    exfalso.
    assert (2 ^ j <= 2 ^ N.pred (N.log2_up fee)) as Hpow
      by (apply N.pow_le_mono_r; lia).
    lia.
Qed.

Lemma blank_count_value feeReserve :
  feeReserve <= 2 ^ 49 ->
  blank_count feeReserve =
  Finite (Z.of_N (if feeReserve =? 0 then 0 else N.max 1 (N.log2_up feeReserve))).
Proof.
  intros Hle. unfold blank_count.
  destruct (N.eqb_spec feeReserve 0) as [-> | Hne]; [reflexivity |].
  rewrite Math_ceil_log2_exact by lia.
  destruct (N.log2_up feeReserve) as [|q]; [reflexivity |].
  rewrite N.max_r by lia. reflexivity.
Qed.


Section PlanningClaims.
Context `{Curve} `{Derivation} `{Entropy} `{TokenFormat}.

(** C1 (code at the failing input).  On a wallet with a seed,
    createSplitPayload called as send calls it with counter 0, amount 1
    and one selected proof of amount 3 plans a keep output (amount 2) and
    a send output (amount 1) whose secrets are both derived from index 0:
    the send group does not start at counter + 1, and index 0 is used
    twice. *)
Theorem createSplitPayload_counter_zero_reuses_index seed keyset p (w : World) :
  _seed (wallet w) = Some seed ->
  proof_amount p = 3 ->
  exists out,
    createSplitPayload 1 [p] keyset None (Some 0) w = (inr out, w) /\
    amounts (snd out) = [2; 1] /\
    secrets (snd out) =
      [derived_secret seed (keys_id keyset) 0; derived_secret seed (keys_id keyset) 0].
Proof.
  intros Hseed Hp.
  destruct (createSplitPayload_derived seed keyset 1 [p] None [1] 0 w Hseed eq_refl)
    as (out & Hrun & Hamounts & Hsecrets).
  exists out. split; [exact Hrun |].
  assert (total_amount [p] - 1 = 2) as Hkeep
    by (unfold total_amount; cbn [fold_left]; rewrite Hp; reflexivity).
  rewrite Hkeep in Hamounts, Hsecrets. auto.
Qed.

(** C6 (amended).  For a fee reserve of at most 2^48, createBlankOutputs
    plans only outputs of amount 1: none when the fee reserve is 0, and
    max(1, ceil(log2(fee reserve))) of them when it is positive.  It
    returns unless a counter is given to a wallet without a seed. *)
Theorem createBlankOutputs_count feeReserve keysetId counter (w : World) :
  feeReserve <= 2 ^ 48 ->
  match fst (createBlankOutputs feeReserve keysetId counter w) with
  | inr out =>
      Forall (fun bm => bm_amount bm = 1) (blindedMessages out) /\
      ((feeReserve = 0 /\ List.length (blindedMessages out) = 0%nat) \/
       (0 < feeReserve /\
        exists k, is_ceil_log2 feeReserve k /\
                  N.of_nat (List.length (blindedMessages out)) = N.max 1 k))
  | inl e => e = NoSeed /\ counter <> None /\ _seed (wallet w) = None
  end.
Proof.
  intros Hbound.
  unfold createBlankOutputs. rewrite blank_count_value by lia.
  set (n := if feeReserve =? 0 then 0 else N.max 1 (N.log2_up feeReserve)).
  assert ((match Finite (Z.of_N n) with
           | Finite 0%Z => []
           | _ => Array_fill (Finite (Z.of_N n)) 1
           end) = repeat 1 (N.to_nat n)) as ->.
  { destruct n as [|q]; reflexivity. }
  rewrite createBlindedMessages_unfold.
  assert (forall seed,
    let out := createBlindedMessages_from seed keysetId counter (repeat 1 (N.to_nat n)) 0
                 (rng w) in
    Forall (fun bm => bm_amount bm = 1) (fst (fst (fst out))) /\
    ((feeReserve = 0 /\ List.length (fst (fst (fst out))) = 0%nat) \/
     (0 < feeReserve /\
      exists k, is_ceil_log2 feeReserve k /\
                N.of_nat (List.length (fst (fst (fst out)))) = N.max 1 k))) as Hshape.
  { intros seed out.
    destruct (createBlindedMessages_from_shape seed keysetId counter
                (repeat 1 (N.to_nat n)) 0 (rng w)) as (Hamounts & _ & _ & _).
    fold out in Hamounts.
    assert (List.length (fst (fst (fst out))) = N.to_nat n) as Hlen.
    { rewrite <- (List.length_map bm_amount), Hamounts, List.repeat_length. reflexivity. }
    split.
    - apply Forall_forall. intros bm Hin.
      apply (List.in_map bm_amount) in Hin. rewrite Hamounts in Hin.
      apply List.repeat_spec in Hin. exact Hin.
    - rewrite Hlen. unfold n. destruct (N.eqb_spec feeReserve 0) as [-> | Hne].
      + left. split; reflexivity.
      + right. split; [lia |]. exists (N.log2_up feeReserve).
        split; [apply log2_up_is_ceil; lia | apply N2Nat.id]. }
  destruct counter as [c|], (_seed (wallet w)) as [s|]; cbn [fst blindedMessages];
    try apply Hshape.
  repeat split. discriminate.
Qed.

(** C8.  With a seed, createBlindedMessages is a function of the seed,
    the keyset id, the counter and the amounts: two runs, whatever the
    state of the entropy source and of the rest of the wallet, return the
    same blinded messages, secrets and blinding factors, and neither run
    draws from the entropy source. *)
Theorem createBlindedMessages_deterministic seed keysetId c amounts0 (w1 w2 : World) :
  _seed (wallet w1) = Some seed ->
  _seed (wallet w2) = Some seed ->
  (exists out,
     fst (createBlindedMessages amounts0 keysetId (Some c) w1) = inr out /\
     fst (createBlindedMessages amounts0 keysetId (Some c) w2) = inr out) /\
  rng (snd (createBlindedMessages amounts0 keysetId (Some c) w1)) = rng w1 /\
  rng (snd (createBlindedMessages amounts0 keysetId (Some c) w2)) = rng w2.
Proof.
  intros H1' H2'.
  rewrite (createBlindedMessages_derived seed keysetId c amounts0 w1 H1').
  rewrite (createBlindedMessages_derived seed keysetId c amounts0 w2 H2').
  cbn [fst snd]. split; [eexists; split; reflexivity | split; reflexivity].
Qed.
End PlanningClaims.

(* ===================================================================== *)
(* send                                                                  *)
(* ===================================================================== *)

Section SendClaims.
Context `{Curve} `{Derivation} `{Entropy} `{TokenFormat}.
Variable mint : CashuMint.

(** C4.  Under a mint that answers a split with one signature per
    requested output, in request order and for the requested amounts,
    every send that returns hands out send proofs worth the amount (the
    total of the preference when one is given), and send proofs and
    returned change together are worth the input proofs. *)
Theorem send_conserves_value amount proofs preference counter (w w' : World) result :
  signs_as_requested mint ->
  send mint amount proofs preference counter w = (inr result, w') ->
  total_amount (send_proofs result)
    = match preference with
      | Some p => preference_total p
      | None => amount
      end /\
  total_amount (send_proofs result) + total_amount (returnChange result)
    = total_amount proofs.
Proof.
  intros Hmint. unfold send.
  set (a := match preference with
            | Some p => preference_total p
            | None => amount
            end).
  unfold bind at 1. destruct (initKeys mint w) as [[e|keyset] w1]; [discriminate |].
  destruct (select_prefix a proofs 0 [] []) as (s & k & Hsk & Hfold).
  rewrite Hfold. cbn [List.app]. rewrite N.add_0_l.
  destruct (N.ltb_spec (total_amount s) a) as [Hlt | Hge]; [discriminate |].
  destruct (_ || _) eqn:Hbranch.
  - unfold splitReceive. cbv zeta. unfold bind at 1.
    destruct (createSplitPayload a s keyset preference counter w1)
      as [[e|[payload out]] w2] eqn:Eplan; [discriminate |].
    apply createSplitPayload_shape in Eplan.
    destruct Eplan as (sendAmounts & Hsend & Hamounts & Hmsgs & _ & Hpayload & _ & _).
    unfold bind at 1. unfold request.
    destruct (mint_split mint (calls w2) payload) as [f|signatures] eqn:Eswap;
      [discriminate |].
    apply Hmint in Eswap. unfold bind at 1. unfold lift.
    destruct (constructProofs signatures (rs out) (secrets out) keyset)
      as [e|proofs0] eqn:Eproofs; [discriminate |].
    apply constructProofs_amounts in Eproofs.
    assert (List.map proof_amount proofs0
            = default_split (total_amount s - a) ++ sendAmounts) as Hmap.
    { rewrite Eproofs, Eswap, Hpayload. cbn [split_outputs]. congruence. }
    destruct (keep_exact (total_amount s - a) (default_split (total_amount s - a))
                sendAmounts (default_split_positive _) proofs0 0 [] Hmap)
      as (k' & s' & Hks & Hk' & Hs' & Hloop).
    { rewrite default_split_sum. lia. }
    rewrite Hloop. unfold ret. intros [= <- <-]. cbn [send_proofs returnChange List.app].
    assert (total_amount s' = a) as Hs'a.
    { rewrite total_amount_sumN, Hs'. eapply splitAmount_sum; eauto. }
    assert (total_amount k' = total_amount s - a) as Hk'a.
    { rewrite total_amount_sumN, Hk'. apply default_split_sum. }
    split; [exact Hs'a |].
    rewrite Hsk, !total_amount_app, Hs'a, Hk'a. lia.
  - unfold ret. intros [= <- <-]. cbn [send_proofs returnChange].
    apply Bool.orb_false_elim in Hbranch. destruct Hbranch as [Hnlt Hpref].
    apply N.ltb_ge in Hnlt.
    split; [lia |]. rewrite Hsk, total_amount_app. lia.
Qed.

(** C3 (amended).  When the proofs send selects are worth the amount
    exactly and no preference is given, send performs no swap: after
    initKeys it returns the selected input proofs themselves as send and
    the unselected rest as change, and sends nothing else to the mint. *)
Theorem send_exact_returns_selected amount selected rest counter keyset (w w1 : World) :
  initKeys mint w = (inr keyset, w1) ->
  fold_left (select_step amount) (selected ++ rest) (0, [], [])
    = (amount, selected, rest) ->
  send mint amount (selected ++ rest) None counter w
    = (inr (mkSendResponse rest selected), w1).
Proof.
  intros Hkeys Hselect. unfold send. unfold bind. rewrite Hkeys, Hselect.
  rewrite N.ltb_irrefl. reflexivity.
Qed.
End SendClaims.

(* ===================================================================== *)
(* meltTokens                                                            *)
(* ===================================================================== *)

Section MeltClaims.
Context `{Curve} `{Derivation} `{Entropy} `{TokenFormat}.
Variable mint : CashuMint.


End MeltClaims.

(* ===================================================================== *)
(* receive                                                               *)
(* ===================================================================== *)

Section ReceiveClaims.
Context `{Curve} `{Derivation} `{Entropy} `{TokenFormat}.
Variable mint : CashuMint.

(** C2 (the code on every input).  Whenever receive returns, the token
    field of the object it returns is itself an object whose only field,
    again called token, holds the array of new entries: the array is one
    level further down than the flat shape has it. *)
Theorem receive_token_field_is_nested token0 preference counter (w w' : World) result :
  receive mint token0 preference counter w = (inr result, w') ->
  js_isArray (js_get "token" (ReceiveResponse_value result)) = false /\
  js_get "token" (ReceiveResponse_value result)
    = JsObject [("token"%string,
                 JsArray (List.map TokenEntry_value (token (rr_token result))))].
Proof.
  intros Hrun.
  assert (exists oks bads,
            result = mkReceiveResponse (mkToken oks None)
                       (match bads with
                        | [] => None
                        | _ :: _ => Some (mkToken bads None)
                        end)) as (oks & bads & ->).
  { revert Hrun. unfold receive. destruct token0 as [encoded|t].
    - destruct (getDecodedToken encoded) as [t|]; [|discriminate].
      unfold bind at 1. unfold ret at 1. unfold bind.
      destruct (receive_entries mint _ preference counter w) as [[e|[oks bads]] w1];
        [discriminate |].
      unfold ret. intros [= <- <-]. eauto.
    - unfold bind at 1. unfold ret at 1. unfold bind.
      destruct (receive_entries mint _ preference counter w) as [[e|[oks bads]] w1];
        [discriminate |].
      unfold ret. intros [= <- <-]. eauto. }
  split; reflexivity.
Qed.

(** C9.  receive on a token object always returns.  If the try block of
    receiveTokenEntry throws on an entry with proofs, whatever the error
    (a mint error on the swap of that entry included), the entry is
    listed in tokensWithErrors between the failures before and after it,
    and the entries after it are processed from the state the failure
    left, as they would be on their own. *)
Theorem receive_isolates_entry_failures t preference counter (w : World) :
  (exists result w', receive mint (inr t) preference counter w = (inr result, w')) /\
  forall before tokenEntry after oks1 bads1 w1 err w2,
    token t = before ++ tokenEntry :: after ->
    entry_proofs tokenEntry <> [] ->
    receive_entries mint before preference counter w = (inr (oks1, bads1), w1) ->
    receiveTokenEntry_try mint tokenEntry preference counter w1 = (inl err, w2) ->
    exists oks3 bads3 w3,
      receive_entries mint after preference counter w2 = (inr (oks3, bads3), w3) /\
      receive mint (inr t) preference counter w
        = (inr (mkReceiveResponse
                  (mkToken (oks1 ++ oks3) None)
                  (Some (mkToken (bads1 ++ tokenEntry :: bads3) None))), w3).
Proof.
  split.
  - rewrite receive_unfold.
    destruct (receive_entries_total mint (token t) preference counter w)
      as (oks & bads & w' & ->).
    eexists _, _. reflexivity.
  - intros before tokenEntry after oks1 bads1 w1 err w2 Htoken Hproofs Hbefore Htry.
    destruct (receive_entries_total mint after preference counter w2)
      as (oks3 & bads3 & w3 & Hafter).
    exists oks3, bads3, w3. split; [exact Hafter |].
    assert (receive_entries mint (tokenEntry :: after) preference counter w1
            = (inr (oks3, tokenEntry :: bads3), w3)) as Hrest.
    { cbn [receive_entries].
      destruct (entry_proofs tokenEntry) as [|p ps] eqn:Eproofs; [contradiction |].
      unfold bind at 1.
      rewrite (receive_entry_caught mint tokenEntry preference counter w1 w2 err)
        by (try rewrite Eproofs; auto; discriminate).
      unfold bind. rewrite Hafter. reflexivity. }
    rewrite receive_unfold, Htoken.
    rewrite (receive_entries_app mint _ _ _ _ _ _ _ _ _ _ _ Hbefore Hrest).
    destruct bads1; reflexivity.
Qed.
End ReceiveClaims.

(* ===================================================================== *)
(* The no-seed error                                                     *)
(* ===================================================================== *)

Section NoSeedClaims.
Context `{Curve} `{Derivation} `{Entropy} `{TokenFormat}.
Variable mint : CashuMint.

(** C5 (amended).  createBlindedMessages throws the no-seed error exactly
    when a counter (0 included) is supplied and the wallet has no seed,
    and then nothing has happened.  On a wallet without a seed:
    meltTokens with a counter and restore throw a no-seed error before
    anything is sent to the mint; send with a counter throws it after
    initKeys and after the funds check, and only when it goes on to swap
    (otherwise it returns the selected proofs); receive with a counter
    returns, with every entry that has proofs among the entries with
    errors.  With a seed or without a counter, send, receive and
    meltTokens throw no no-seed error, and neither does restore with a
    seed. *)
Theorem no_seed_error_amended counter (w : World) :
  (forall amounts0 keysetId,
     match counter, _seed (wallet w) with
     | Some _, None =>
         createBlindedMessages amounts0 keysetId counter w = (inl NoSeed, w)
     | _, _ =>
         exists out w', createBlindedMessages amounts0 keysetId counter w = (inr out, w')
     end) /\
  (_seed (wallet w) = None ->
     (forall meltQuote proofsToSend keysetId c,
        meltTokens mint meltQuote proofsToSend keysetId (Some c) w = (inl NoSeed, w)) /\
     (forall start count keysetId,
        restore mint start count keysetId w = (inl RestoreWithoutSeed, w)) /\
     (forall amount proofs preference c,
        send mint amount proofs preference (Some c) w =
        match initKeys mint w with
        | (inl e, w1) => (inl e, w1)
        | (inr _, w1) =>
            let a := match preference with
                     | Some p => preference_total p
                     | None => amount
                     end in
            let '(amountAvailable, proofsToSend, proofsToKeep) :=
              fold_left (select_step a) proofs (0, [], []) in
            if amountAvailable <? a then (inl NotEnoughFunds, w1)
            else if (a <? amountAvailable) || (match preference with
                                               | Some _ => true
                                               | None => false
                                               end)
                 then (inl NoSeed, w1)
                 else (inr (mkSendResponse proofsToKeep proofsToSend), w1)
        end) /\
     (forall t preference c,
        exists result w',
          receive mint (inr t) preference (Some c) w = (inr result, w') /\
          token (rr_token result) = [] /\
          tokensWithErrors_entries result
            = List.filter (fun e => match entry_proofs e with
                                    | [] => false
                                    | _ :: _ => true
                                    end) (token t))) /\
  (counter = None \/ _seed (wallet w) <> None ->
     forall e, is_no_seed_error e = true ->
       (forall amount proofs preference,
          fst (send mint amount proofs preference counter w) <> inl e) /\
       (forall token0 preference,
          fst (receive mint token0 preference counter w) <> inl e) /\
       (forall meltQuote proofsToSend keysetId,
          fst (meltTokens mint meltQuote proofsToSend keysetId counter w) <> inl e)) /\
  (_seed (wallet w) <> None ->
     forall start count keysetId e, is_no_seed_error e = true ->
       fst (restore mint start count keysetId w) <> inl e).
Proof.
  split; [|split; [|split]].
  - intros amounts0 keysetId.
    destruct counter as [c|] eqn:Ec, (_seed (wallet w)) as [s|] eqn:Es.
    + apply createBlindedMessages_returns. right. congruence.
    + apply createBlindedMessages_without_seed. exact Es.
    + apply createBlindedMessages_returns. left. reflexivity.
    + apply createBlindedMessages_returns. left. reflexivity.
  - intros Hseed. repeat split.
    + intros. apply meltTokens_without_seed. exact Hseed.
    + intros. apply restore_without_seed. exact Hseed.
    + intros. apply send_without_seed. exact Hseed.
    + intros t preference c. rewrite receive_unfold.
      destruct (receive_entries_without_seed mint (token t) preference c w Hseed)
        as (w' & ->).
      eexists _, _. split; [reflexivity |]. split; [reflexivity |].
      unfold tokensWithErrors_entries. cbn [rr_tokensWithErrors].
      destruct (List.filter _ (token t)); reflexivity.
  - intros Hmode e He. repeat split.
    + intros amount proofs preference Hrun.
      destruct (send mint amount proofs preference counter w) as [r w'] eqn:E.
      cbn [fst] in Hrun. subst r.
      pose proof (keeps_error counter _ w w' e (keeps_send mint _ _ _ _ _ _) E Hmode).
      congruence.
    + intros token0 preference Hrun.
      destruct (receive mint token0 preference counter w) as [r w'] eqn:E.
      cbn [fst] in Hrun. subst r.
      apply receive_error in E. subst e. discriminate.
    + intros meltQuote proofsToSend keysetId Hrun.
      destruct (meltTokens mint meltQuote proofsToSend keysetId counter w) as [r w'] eqn:E.
      cbn [fst] in Hrun. subst r.
      pose proof (keeps_error counter _ w w' e (keeps_meltTokens mint _ _ _ _ _ _) E Hmode).
      congruence.
  - intros Hseed start count keysetId e He Hrun.
    destruct (restore mint start count keysetId w) as [r w'] eqn:E.
    cbn [fst] in Hrun. subst r.
    pose proof (keeps_error (Some start) _ w w' e (keeps_restore mint _ _ _ _ _) E
                  (or_intror Hseed)).
    congruence.
Qed.
End NoSeedClaims.

(* ===================================================================== *)
(* The key cache                                                         *)
(* ===================================================================== *)

Section KeyCache.
Context `{Curve} `{Derivation} `{Entropy} `{TokenFormat}.
Variable mint : CashuMint.

Lemma initKeys_cases (w : World) :
  (exists keys, _keys (wallet w) = Some keys /\ _keysetId (wallet w) <> EmptyString /\
                initKeys mint w = (inr keys, w)) \/
  ((_keys (wallet w) = None \/ _keysetId (wallet w) = EmptyString) /\
   exists w0, calls w0 = calls w ++ [CallGetKeys None None] /\
              wallet w0 = wallet w /\ rng w0 = rng w /\
     match mint_getKeys mint (calls w) None None with
     | inl f => initKeys mint w = (inl (MintError f), w0)
     | inr keys =>
         initKeys mint w =
         (inr keys,
          mkWorld (mkWallet (Some keys) (keys_id keys) (_seed (wallet w))
                     (wallet_unit (wallet w))) (rng w) (calls w0))
     end).
Proof.
  unfold initKeys, bind, this. destruct (_keys (wallet w)) as [keys|] eqn:Ek.
  - destruct (String.eqb_spec (_keysetId (wallet w)) "") as [Eid | Eid].
    + right. split; [auto |].
      exists (mkWorld (wallet w) (rng w) (calls w ++ [CallGetKeys None None])).
      repeat split. unfold request.
      destruct (mint_getKeys mint (calls w) None None); reflexivity.
    + left. exists keys. auto.
  - right. split; [auto |].
    exists (mkWorld (wallet w) (rng w) (calls w ++ [CallGetKeys None None])).
    repeat split. unfold request.
    destruct (mint_getKeys mint (calls w) None None); reflexivity.
Qed.

(** X1.  The keys initKeys returns are the keys the wallet holds
    afterwards, and once keys with a non-empty id have been returned a
    second initKeys returns the same keys without asking the mint. *)
Theorem initKeys_fetches_once (w w1 : World) keys :
  initKeys mint w = (inr keys, w1) ->
  keys_id keys <> EmptyString ->
  _keys (wallet w1) = Some keys /\ initKeys mint w1 = (inr keys, w1).
Proof.
  intros Hrun Hid.
  destruct (initKeys_cases w) as [(k & Hk & Hcached & Hsame) | (_ & w0 & _ & _ & _ & Hfetch)].
  - rewrite Hsame in Hrun. injection Hrun as <- <-. auto.
  - destruct (mint_getKeys mint (calls w) None None) as [f|k];
      rewrite Hfetch in Hrun; [discriminate |].
    injection Hrun as <- <-. split; [reflexivity |].
    unfold initKeys, bind, this. cbn [wallet _keys _keysetId].
    destruct (String.eqb_spec (keys_id k) ""); [contradiction | reflexivity].
Qed.

(** X2.  initKeys fails only when it has to fetch and the mint refuses:
    the error is the mint's, the single keys request is the only thing
    that happened, and the cached keys and id are what they were. *)
Theorem initKeys_failure_leaves_cache (w w1 : World) e :
  initKeys mint w = (inl e, w1) ->
  (exists f, e = MintError f) /\
  wallet w1 = wallet w /\
  calls w1 = calls w ++ [CallGetKeys None None].
Proof.
  intros Hrun.
  destruct (initKeys_cases w) as [(k & _ & _ & Hsame) | (_ & w0 & Hc & Hw & _ & Hfetch)].
  - rewrite Hsame in Hrun. discriminate.
  - destruct (mint_getKeys mint (calls w) None None) as [f|k];
      rewrite Hfetch in Hrun; [|discriminate].
    injection Hrun as <- <-. eauto.
Qed.

(** X3.  getKeys changes the wallet only through its initKeys: keys it
    fetches for the keyset id of the first signature are handed back to
    the caller and not put in the cache. *)
Theorem getKeys_leaves_cache arr mint0 (w : World) :
  wallet (snd (getKeys mint arr mint0 w)) = wallet (snd (initKeys mint w)).
Proof.
  unfold getKeys. unfold bind at 1.
  destruct (initKeys mint w) as [[e|keys] w1]; [reflexivity |]. cbn [snd].
  destruct arr as [|first rest]; [reflexivity |].
  destruct (String.eqb (sig_id first) ""); [reflexivity |].
  unfold bind, this. destruct (String.eqb _ _); [reflexivity |].
  assert (forall c (answer : list MintCall -> MintFailure + MintKeys),
            wallet (snd (request c answer w1)) = wallet w1) as Hreq.
  { intros c answer. unfold request. destruct (answer (calls w1)); reflexivity. }
  destruct mint0 as [url|]; [destruct (_ || _) |]; apply Hreq.
Qed.
End KeyCache.

(* ===================================================================== *)
(* More on output planning                                               *)
(* ===================================================================== *)

Lemma indices_nth start n i :
  (i < n)%nat -> nth_error (indices start n) i = Some (start + N.of_nat i).
Proof.
  revert start i; induction n as [|n IH]; intros start i Hi; [lia |].
  destruct i as [|i]; cbn [indices nth_error].
  - f_equal. lia.
  - rewrite IH by lia. f_equal. lia.
Qed.

Section PlanningMore.
Context `{Curve} `{Derivation} `{Entropy} `{TokenFormat}.

Lemma createBlindedMessages_from_seedless seed keysetId amounts0 i g :
  createBlindedMessages_from seed keysetId None amounts0 i g
  = createBlindedMessages_from None keysetId None amounts0 i g.
Proof.
  destruct seed as [s|]; [|reflexivity].
  revert i g; induction amounts0 as [|a rest IH]; intros i g; [reflexivity |].
  cbn [createBlindedMessages_from].
  destruct (randomBytes 32 g) as [b g1].
  destruct (blindMessage _ None g1) as [[B_ r] g2].
  rewrite (IH (i + 1) g2). reflexivity.
Qed.

(** X4.  Without a counter createBlindedMessages does not look at the
    seed: wallets that differ in anything but the state of the entropy
    source plan the same outputs and leave the entropy source in the same
    state.  A wallet with a seed therefore plans random outputs
    unless a counter is passed. *)
Theorem createBlindedMessages_without_counter_ignores_seed amounts0 keysetId
    (w1 w2 : World) :
  rng w1 = rng w2 ->
  fst (createBlindedMessages amounts0 keysetId None w1)
    = fst (createBlindedMessages amounts0 keysetId None w2) /\
  rng (snd (createBlindedMessages amounts0 keysetId None w1))
    = rng (snd (createBlindedMessages amounts0 keysetId None w2)).
Proof.
  intros Hrng. rewrite !createBlindedMessages_unfold. cbv zeta. cbn [fst snd rng].
  rewrite Hrng.
  rewrite (createBlindedMessages_from_seedless (_seed (wallet w1))).
  rewrite (createBlindedMessages_from_seedless (_seed (wallet w2))).
  split; reflexivity.
Qed.

(** X5.  Whenever createBlindedMessages returns, it has planned exactly
    one blinded message, one secret and one blinding factor per amount,
    the i-th message for the i-th amount and every message for the given
    keyset id; the wallet and the requests sent to the mint are as
    before. *)
Theorem createBlindedMessages_one_output_per_amount amounts0 keysetId counter
    (w w' : World) out :
  createBlindedMessages amounts0 keysetId counter w = (inr out, w') ->
  List.map bm_amount (blindedMessages out) = amounts0 /\
  Forall (fun bm => bm_id bm = keysetId) (blindedMessages out) /\
  List.length (secrets out) = List.length amounts0 /\
  List.length (rs out) = List.length amounts0 /\
  amounts out = amounts0 /\
  wallet w' = wallet w /\ calls w' = calls w.
Proof.
  intros Hrun. apply createBlindedMessages_shape in Hrun.
  destruct Hrun as (Ha & Hm & Hid & Hs & Hr & Hw & Hc). auto 10.
Qed.

(** X6.  With a seed and a counter, the output at position i is derived
    from index counter + i: its secret is the hex text of
    deriveSecret(seed, keysetId, counter + i) and its blinding factor is
    bytesToNumber(deriveBlindingFactor(seed, keysetId, counter + i)). *)
Theorem createBlindedMessages_position_index seed keysetId c amounts0 i (w : World) :
  _seed (wallet w) = Some seed ->
  (i < List.length amounts0)%nat ->
  exists out,
    createBlindedMessages amounts0 keysetId (Some c) w = (inr out, w) /\
    nth_error (secrets out) i = Some (derived_secret seed keysetId (c + N.of_nat i)) /\
    nth_error (rs out) i = Some (derived_r seed keysetId (c + N.of_nat i)).
Proof.
  intros Hseed Hi.
  rewrite (createBlindedMessages_derived seed keysetId c amounts0 w Hseed). cbv zeta.
  eexists. split; [reflexivity |]. cbn [secrets rs].
  rewrite !List.nth_error_map, indices_nth by exact Hi. split; reflexivity.
Qed.

(* What a split payload asks for is worth what it spends. *)
Lemma createSplitPayload_outputs_worth_inputs amount proofsToSend keyset preference counter
    (w w' : World) payload out :
  createSplitPayload amount proofsToSend keyset preference counter w
    = (inr (payload, out), w') ->
  amount <= total_amount proofsToSend ->
  split_inputs payload = proofsToSend /\
  sumN (List.map bm_amount (split_outputs payload)) = total_amount proofsToSend /\
  Forall (fun bm => bm_id bm = keys_id keyset) (split_outputs payload) /\
  wallet w' = wallet w /\ calls w' = calls w.
Proof.
  intros Hrun Hle. apply createSplitPayload_shape in Hrun.
  destruct Hrun as (sendAmounts & Hsend & Hamounts & Hmsgs & Hid & -> & Hw & Hc).
  cbn [split_inputs split_outputs]. repeat split; try assumption.
  rewrite Hmsgs, Hamounts, sumN_app, default_split_sum.
  rewrite (splitAmount_sum _ _ _ Hsend). lia.
Qed.

(** X7.  The split request createSplitPayload builds spends the given
    proofs and, when the amount does not exceed what they are worth, asks
    for outputs worth exactly as much: the keep outputs make up the
    difference.  Building it changes neither the wallet nor the requests
    sent. *)
Theorem createSplitPayload_balanced amount proofsToSend keyset preference counter
    (w w' : World) payload out :
  createSplitPayload amount proofsToSend keyset preference counter w
    = (inr (payload, out), w') ->
  amount <= total_amount proofsToSend ->
  split_inputs payload = proofsToSend /\
  sumN (List.map bm_amount (split_outputs payload)) = total_amount proofsToSend /\
  Forall (fun bm => bm_id bm = keys_id keyset) (split_outputs payload) /\
  wallet w' = wallet w /\ calls w' = calls w.
Proof. apply createSplitPayload_outputs_worth_inputs. Qed.
End PlanningMore.

(* ===================================================================== *)
(* More on send                                                          *)
(* ===================================================================== *)

Section SendMore.
Context `{Curve} `{Derivation} `{Entropy} `{TokenFormat}.
Variable mint : CashuMint.

(* The first loop of send stops taking proofs as soon as the amount is
   covered: no shorter prefix covers it. *)
Lemma select_shortest amount proofs a0 ts0 tk0 :
  exists s k,
    proofs = s ++ k /\
    fold_left (select_step amount) proofs (a0, ts0, tk0)
      = (a0 + total_amount s, ts0 ++ s, tk0 ++ k) /\
    (k <> [] -> amount <= a0 + total_amount s) /\
    (forall s1 s2, s = s1 ++ s2 -> s2 <> [] -> a0 + total_amount s1 < amount).
Proof.
  revert a0 ts0; induction proofs as [|p proofs IH]; intros a0 ts0.
  - exists [], []. simpl. rewrite !List.app_nil_r, N.add_0_r.
    split; [reflexivity |]. split; [reflexivity |]. split; [congruence |].
    intros s1 s2 Hs Hs2. destruct s1, s2; try discriminate. congruence.
  - destruct (N.leb_spec amount a0) as [Hle | Hlt].
    + exists [], (p :: proofs). rewrite select_covered by exact Hle.
      rewrite List.app_nil_r. unfold total_amount. simpl. rewrite N.add_0_r.
      split; [reflexivity |]. split; [reflexivity |]. split; [intros _; exact Hle |].
      intros s1 s2 Hs Hs2. destruct s1, s2; try discriminate. congruence.
    + cbn [fold_left select_step].
      destruct (N.leb_spec amount a0); [lia |].
      destruct (IH (a0 + proof_amount p) (ts0 ++ [p]))
        as (s & k & Hsk & Hfold & Hcov & Hmin).
      exists (p :: s), k.
      assert (total_amount (p :: s) = proof_amount p + total_amount s) as Htot.
      { change (p :: s) with ([p] ++ s). rewrite total_amount_app.
        unfold total_amount at 1. simpl. reflexivity. }
      split; [simpl; congruence |]. split.
      { rewrite Hfold, <- List.app_assoc, Htot. cbn [List.app].
        replace (a0 + proof_amount p + total_amount s)
          with (a0 + (proof_amount p + total_amount s)) by lia.
        reflexivity. }
      split.
      { intros Hk. specialize (Hcov Hk). rewrite Htot. lia. }
      intros s1 s2 Hs Hs2. destruct s1 as [|q s1].
      * unfold total_amount. simpl. lia.
      * simpl in Hs. injection Hs as <- Hs.
        specialize (Hmin s1 s2 Hs Hs2).
        assert (total_amount (p :: s1) = proof_amount p + total_amount s1) as Htot1.
        { change (p :: s1) with ([p] ++ s1). rewrite total_amount_app.
          unfold total_amount at 1. simpl. reflexivity. }
        rewrite Htot1. lia.
Qed.

Lemma splitAmount_throws amount preference e :
  splitAmount amount preference = inl e -> e = InvalidPreference.
Proof.
  unfold splitAmount. destruct preference as [p|]; [|discriminate].
  destruct (forallb _ p); [destruct (_ =? _); discriminate |].
  intros [= <-]. reflexivity.
Qed.

Lemma createSplitPayload_throws amount proofsToSend keyset preference counter
    (w w' : World) e :
  createSplitPayload amount proofsToSend keyset preference counter w = (inl e, w') ->
  e = NoSeed \/ e = InvalidPreference.
Proof.
  assert (forall a pref c (w0 w1 : World) e0,
            createRandomBlindedMessages a keyset pref c w0 = (inl e0, w1) ->
            e0 = NoSeed \/ e0 = InvalidPreference) as Hplan.
  { intros a pref c w0 w1 e0. unfold createRandomBlindedMessages, bind, lift.
    destruct (splitAmount a pref) as [e1|l] eqn:Es.
    - intros [= <- _]. right. eapply splitAmount_throws; eauto.
    - rewrite createBlindedMessages_unfold.
      destruct c as [c0|], (_seed (wallet w0)); try discriminate.
      intros [= <- _]. left. reflexivity. }
  unfold createSplitPayload. unfold bind at 1.
  destruct (createRandomBlindedMessages _ keyset None counter w) as [[e1|keep] w1] eqn:Ek.
  - intros [= <- _]. eapply Hplan; eauto.
  - unfold bind at 1. unfold this at 1. cbv zeta. unfold bind.
    match goal with
    | |- context [createRandomBlindedMessages amount keyset preference ?c w1] =>
        destruct (createRandomBlindedMessages amount keyset preference c w1)
          as [[e2|sendBM] w2] eqn:Esend
    end; [|discriminate].
    intros [= <- _]. eapply Hplan; eauto.
Qed.

Lemma constructProofs_throws promises rs0 secrets0 keyset e :
  constructProofs promises rs0 secrets0 keyset = inl e ->
  e = UnknownDenomination \/ e = InvalidPoint \/ e = LengthMismatch.
Proof.
  revert rs0 secrets0; induction promises as [|p promises IH]; intros rs0 secrets0.
  - destruct rs0, secrets0; simpl; intros [= <-]; auto.
  - destruct rs0 as [|r rs0]; [simpl; intros [= <-]; auto |].
    destruct secrets0 as [|s secrets0]; [simpl; intros [= <-]; auto |].
    cbn [constructProofs].
    destruct (keys_keys keyset !! sig_amount p); [|intros [= <-]; auto].
    destruct (pointFromHex (sig_C_ p)); [|intros [= <-]; auto].
    destruct (pointFromHex s0); [|intros [= <-]; auto].
    destruct (constructProofs promises rs0 secrets0 keyset) eqn:E; [|discriminate].
    intros [= <-]. eapply IH; eauto.
Qed.

(** X8.  Once the keys are there, send fails with 'Not enough funds
    available' exactly when the proofs are worth less than the amount
    (the total of the preference when one is given); in that case
    nothing is sent to the mint beyond what initKeys sent. *)
Theorem send_not_enough_funds amount proofs preference counter keyset (w w1 : World) :
  initKeys mint w = (inr keyset, w1) ->
  let a := match preference with
           | Some p => preference_total p
           | None => amount
           end in
  (fst (send mint amount proofs preference counter w) = inl NotEnoughFunds
   <-> total_amount proofs < a) /\
  (total_amount proofs < a ->
   send mint amount proofs preference counter w = (inl NotEnoughFunds, w1)).
Proof.
  intros Hkeys a.
  destruct (select_shortest a proofs 0 [] []) as (s & k & Hsk & Hfold & Hcov & _).
  cbn [List.app] in Hfold. rewrite N.add_0_l in Hfold, Hcov.
  assert (total_amount proofs = total_amount s + total_amount k) as Htotal
    by (rewrite Hsk; apply total_amount_app).
  assert (total_amount proofs < a ->
          send mint amount proofs preference counter w = (inl NotEnoughFunds, w1)) as Hfail.
  { intros Hlt. unfold send. fold a. unfold bind at 1. rewrite Hkeys, Hfold.
    destruct k as [|p k].
    - rewrite List.app_nil_r in Hsk. subst s.
      destruct (N.ltb_spec (total_amount proofs) a); [reflexivity | lia].
    - assert (a <= total_amount s) by (apply Hcov; discriminate). lia. }
  split; [|exact Hfail]. split; [|intros Hlt; rewrite (Hfail Hlt); reflexivity].
  unfold send. fold a. unfold bind at 1. rewrite Hkeys, Hfold.
  destruct (N.ltb_spec (total_amount s) a) as [Hlt | Hge].
  - intros _. destruct k as [|p k].
    + rewrite List.app_nil_r in Hsk. subst s. exact Hlt.
    + assert (a <= total_amount s) by (apply Hcov; discriminate). lia.
  - destruct (_ || _); [|discriminate].
    unfold splitReceive. unfold bind at 1.
    destruct (createSplitPayload a s keyset preference counter w1)
      as [[e|[payload out]] w2] eqn:Eplan.
    { apply createSplitPayload_throws in Eplan. cbn [fst].
      destruct Eplan as [-> | ->]; discriminate. }
    unfold bind at 1. unfold request.
    destruct (mint_split mint (calls w2) payload) as [f|signatures]; [discriminate |].
    unfold bind at 1. unfold lift.
    destruct (constructProofs signatures (rs out) (secrets out) keyset)
      as [e|proofs0] eqn:Eproofs.
    { apply constructProofs_throws in Eproofs. cbn [fst].
      destruct Eproofs as [-> | [-> | ->]]; discriminate. }
    destruct (fold_left _ proofs0 _) as [[c0 k0] s0]. discriminate.
Qed.

(** X9.  When send returns, the proofs it selected are the shortest
    prefix of the input that covers the amount, and the proofs after that
    prefix come back unchanged and in order at the end of returnChange. *)
Theorem send_keeps_unselected amount proofs preference counter (w w' : World) result :
  send mint amount proofs preference counter w = (inr result, w') ->
  let a := match preference with
           | Some p => preference_total p
           | None => amount
           end in
  exists selected rest fresh,
    proofs = selected ++ rest /\
    returnChange result = fresh ++ rest /\
    a <= total_amount selected /\
    (forall s1 s2, selected = s1 ++ s2 -> s2 <> [] -> total_amount s1 < a).
Proof.
  intros Hrun a. revert Hrun. unfold send. fold a. unfold bind at 1.
  destruct (initKeys mint w) as [[e|keyset] w1]; [discriminate |].
  destruct (select_shortest a proofs 0 [] []) as (s & k & Hsk & Hfold & _ & Hmin).
  cbn [List.app] in Hfold. rewrite N.add_0_l in Hfold. rewrite Hfold.
  destruct (N.ltb_spec (total_amount s) a) as [Hlt | Hge]; [discriminate |].
  assert (forall s1 s2, s = s1 ++ s2 -> s2 <> [] -> total_amount s1 < a) as Hmin'.
  { intros s1 s2 Hs Hs2. specialize (Hmin s1 s2 Hs Hs2). lia. }
  destruct (_ || _).
  - unfold splitReceive. unfold bind at 1.
    destruct (createSplitPayload a s keyset preference counter w1)
      as [[e|[payload out]] w2]; [discriminate |].
    unfold bind at 1.
    destruct (request _ _ w2) as [[e|signatures] w3]; [discriminate |].
    unfold bind at 1. unfold lift.
    destruct (constructProofs signatures (rs out) (secrets out) keyset)
      as [e|proofs0]; [discriminate |].
    destruct (fold_left _ proofs0 _) as [[c0 k0] s0].
    unfold ret. intros [= <- <-]. exists s, k, k0. cbn [returnChange]. auto.
  - unfold ret. intros [= <- <-]. exists s, k, []. cbn [returnChange]. auto.
Qed.

(** X10.  After initKeys, a send that returns has sent the mint either
    nothing or exactly one split request; the request spends a prefix
    of the input proofs for outputs of the wallet's keyset worth exactly
    as much, and the wallet is as initKeys left it. *)
Theorem send_single_split_request amount proofs preference counter keyset
    (w w1 w' : World) result :
  initKeys mint w = (inr keyset, w1) ->
  send mint amount proofs preference counter w = (inr result, w') ->
  wallet w' = wallet w1 /\
  (calls w' = calls w1 \/
   exists payload rest,
     calls w' = calls w1 ++ [CallSplit payload] /\
     proofs = split_inputs payload ++ rest /\
     sumN (List.map bm_amount (split_outputs payload))
       = total_amount (split_inputs payload) /\
     Forall (fun bm => bm_id bm = keys_id keyset) (split_outputs payload)).
Proof.
  intros Hkeys. unfold send.
  set (a := match preference with
            | Some p => preference_total p
            | None => amount
            end).
  unfold bind at 1. rewrite Hkeys.
  destruct (select_shortest a proofs 0 [] []) as (s & k & Hsk & Hfold & _ & _).
  cbn [List.app] in Hfold. rewrite N.add_0_l in Hfold. rewrite Hfold.
  destruct (N.ltb_spec (total_amount s) a) as [Hlt | Hge]; [discriminate |].
  destruct (_ || _).
  - unfold splitReceive. unfold bind at 1.
    destruct (createSplitPayload a s keyset preference counter w1)
      as [[e|[payload out]] w2] eqn:Eplan; [discriminate |].
    apply createSplitPayload_outputs_worth_inputs in Eplan; [|exact Hge].
    destruct Eplan as (Hin & Hsum & Hid & Hw2 & Hc2).
    unfold bind at 1. unfold request.
    destruct (mint_split mint (calls w2) payload) as [f|signatures]; [discriminate |].
    unfold bind at 1. unfold lift.
    destruct (constructProofs signatures (rs out) (secrets out) keyset)
      as [e|proofs0]; [discriminate |].
    destruct (fold_left _ proofs0 _) as [[c0 k0] s0].
    unfold ret. intros [= _ <-]. cbn [wallet calls]. split; [exact Hw2 |].
    right. exists payload, k. rewrite Hc2, Hin. auto.
  - unfold ret. intros [= _ <-]. auto.
Qed.
End SendMore.

(* ===================================================================== *)
(* More on receive                                                       *)
(* ===================================================================== *)

Section ReceiveMore.
Context `{Curve} `{Derivation} `{Entropy} `{TokenFormat}.
Variable mint : CashuMint.

(** X11.  receiveTokenEntry never throws.  It returns either new proofs
    and no proofsWithError, or no proofs at all and the proofs of the
    entry as proofsWithError (which is undefined when the entry has no
    proofs). *)
Theorem receiveTokenEntry_never_throws tokenEntry preference counter (w : World) :
  exists resp w',
    receiveTokenEntry mint tokenEntry preference counter w = (inr resp, w') /\
    (rte_proofsWithError resp = None \/
     (rte_proofs resp = [] /\ rte_proofsWithError resp = Some (entry_proofs tokenEntry))).
Proof.
  destruct (receiveTokenEntry_try mint tokenEntry preference counter w)
    as [[err|[proofs bad]] w1] eqn:Etry.
  - rewrite (receiveTokenEntry_caught mint _ _ _ _ _ _ Etry).
    eexists _, _. split; [reflexivity |]. cbn [rte_proofs rte_proofsWithError].
    destruct (entry_proofs tokenEntry); auto.
  - destruct (receiveTokenEntry_returned mint _ _ _ _ _ _ _ Etry) as [_ ->].
    eexists _, _. split; [reflexivity |]. left. reflexivity.
Qed.

Lemma receive_entry_result tokenEntry preference counter (w w' : World) r :
  receive_entry mint tokenEntry preference counter w = (inr r, w') ->
  r = inl tokenEntry \/ exists proofs, r = inr (mkTokenEntry (entry_mint tokenEntry) proofs).
Proof.
  unfold receive_entry, try_catch, bind.
  destruct (receiveTokenEntry mint tokenEntry preference counter w) as [[e|resp] w1].
  - unfold ret. intros [= <- _]. auto.
  - destruct (rte_proofsWithError resp) as [[|p bad]|]; unfold ret; intros [= <- _]; eauto.
Qed.

Lemma receive_entries_account decodedToken preference counter (w w' : World) oks bads :
  receive_entries mint decodedToken preference counter w = (inr (oks, bads), w') ->
  (List.length oks + List.length bads
   = List.length (List.filter has_proofs decodedToken))%nat /\
  sublist bads (List.filter has_proofs decodedToken) /\
  sublist (List.map entry_mint oks)
          (List.map entry_mint (List.filter has_proofs decodedToken)).
Proof.
  revert w w' oks bads; induction decodedToken as [|tokenEntry rest IH];
    intros w w' oks bads.
  - cbn. intros [= <- <- _]. repeat split; constructor.
  - cbn [receive_entries List.filter].
    destruct (entry_proofs tokenEntry) as [|p ps] eqn:Eproofs.
    + replace (has_proofs tokenEntry) with false
        by (unfold has_proofs; rewrite Eproofs; reflexivity).
      apply IH.
    + replace (has_proofs tokenEntry) with true
        by (unfold has_proofs; rewrite Eproofs; reflexivity).
      unfold bind at 1.
      destruct (receive_entry_total mint tokenEntry preference counter w) as (r & w0 & Hr).
      rewrite Hr. unfold bind.
      destruct (receive_entries_total mint rest preference counter w0)
        as (oks0 & bads0 & w1 & Hrest).
      rewrite Hrest. destruct (IH _ _ _ _ Hrest) as (Hlen & Hbad & Hok).
      destruct (receive_entry_result _ _ _ _ _ _ Hr) as [-> | (proofs & ->)];
        unfold ret; intros [= <- <- _]; cbn [List.length List.map].
      * split; [lia |]. split; [constructor; exact Hbad | constructor; exact Hok].
      * split; [lia |]. split; [constructor; exact Hbad |].
        cbn [entry_mint]. constructor. exact Hok.
Qed.

(** X12.  receive accounts for every entry that has proofs exactly once
    and in order: the entries with errors are a subsequence of them,
    unchanged; the mints of the new entries are a subsequence of their
    mints; and the two lists together are as long as the list of entries
    with proofs.  Entries without proofs appear nowhere. *)
Theorem receive_accounts_for_entries t preference counter (w w' : World) result :
  receive mint (inr t) preference counter w = (inr result, w') ->
  (List.length (token (rr_token result)) + List.length (tokensWithErrors_entries result)
   = List.length (List.filter has_proofs (token t)))%nat /\
  sublist (tokensWithErrors_entries result) (List.filter has_proofs (token t)) /\
  sublist (List.map entry_mint (token (rr_token result)))
          (List.map entry_mint (List.filter has_proofs (token t))).
Proof.
  rewrite receive_unfold.
  destruct (receive_entries mint (token t) preference counter w)
    as [[e|[oks bads]] w1] eqn:Erun; [discriminate |].
  apply receive_entries_account in Erun.
  intros [= <- _]. unfold tokensWithErrors_entries. cbn [rr_token rr_tokensWithErrors token].
  destruct bads; exact Erun.
Qed.

(** X13.  When the try block of receiveTokenEntry gets through, it has
    sent, after initKeys, exactly one split request, to the mint url of
    the token entry: it spends the proofs of the entry for outputs worth
    exactly as much, all tagged with the id of the keys initKeys returned
    (the keys of the wallet's own mint). *)
Theorem receiveTokenEntry_swaps_at_entry_mint tokenEntry preference counter
    (w w' : World) r :
  receiveTokenEntry_try mint tokenEntry preference counter w = (inr r, w') ->
  exists keyset w1 payload,
    initKeys mint w = (inr keyset, w1) /\
    wallet w' = wallet w1 /\
    calls w' = calls w1 ++ [CallStaticSplit (entry_mint tokenEntry) payload] /\
    split_inputs payload = entry_proofs tokenEntry /\
    sumN (List.map bm_amount (split_outputs payload))
      = total_amount (entry_proofs tokenEntry) /\
    Forall (fun bm => bm_id bm = keys_id keyset) (split_outputs payload).
Proof.
  unfold receiveTokenEntry_try. cbv zeta. unfold bind at 1.
  destruct (initKeys mint w) as [[e|keyset] w1]; [discriminate |].
  unfold bind at 1.
  destruct (createSplitPayload _ _ keyset _ counter w1) as [[e|[payload out]] w2] eqn:Eplan;
    [discriminate |].
  apply createSplitPayload_outputs_worth_inputs in Eplan; [|lia].
  destruct Eplan as (Hin & Hsum & Hid & Hw2 & Hc2).
  unfold bind at 1. unfold request.
  destruct (CashuMint_split mint (calls w2) (entry_mint tokenEntry) payload)
    as [f|signatures]; [discriminate |].
  unfold bind, lift.
  destruct (constructProofs signatures (rs out) (secrets out) keyset); [discriminate |].
  unfold ret. intros [= _ <-]. exists keyset, w1, payload. cbn [wallet calls].
  rewrite Hc2. auto 10.
Qed.

(** X14.  With a seed and a counter, the outputs receiveTokenEntry plans
    for an entry are derived from the indices counter, counter + 1, ...,
    whatever the entry: receive passes its counter on unchanged, so every
    entry of a token starts again at the same index. *)
Theorem receiveTokenEntry_starts_at_counter seed tokenEntry preference c keyset l
    (w w1 : World) :
  _seed (wallet w) = Some seed ->
  initKeys mint w = (inr keyset, w1) ->
  splitAmount (total_amount (entry_proofs tokenEntry))
    (Some (match preference with
           | Some p => p
           | None => getDefaultAmountPreference (total_amount (entry_proofs tokenEntry))
           end)) = inr l ->
  calls (snd (receiveTokenEntry mint tokenEntry preference (Some c) w))
    = calls w1 ++
      [CallStaticSplit (entry_mint tokenEntry)
         (mkSplitPayload (entry_proofs tokenEntry)
            (List.map (derived_message seed (keys_id keyset))
               (combine l (indices c (List.length l)))))].
Proof.
  intros Hseed Hkeys Hsplit.
  pose proof (keeps_run _ _ None (initKeys mint) w (keeps_initKeys mint _ _ _) (Inv_refl w))
    as [Hseed1 _].
  rewrite Hkeys, Hseed in Hseed1. cbn [snd] in Hseed1.
  assert (exists out,
    createSplitPayload (total_amount (entry_proofs tokenEntry)) (entry_proofs tokenEntry)
      keyset
      (Some (match preference with
             | Some p => p
             | None => getDefaultAmountPreference (total_amount (entry_proofs tokenEntry))
             end)) (Some c) w1
    = (inr (mkSplitPayload (entry_proofs tokenEntry)
              (List.map (derived_message seed (keys_id keyset))
                 (combine l (indices c (List.length l)))), out), w1)) as [out Hplan].
  { unfold createSplitPayload. unfold bind at 1.
    rewrite (createRandomBlindedMessages_derived seed keyset _ None [] c w1 Hseed1)
      by (rewrite N.sub_diag; reflexivity).
    cbv zeta. unfold bind at 1. unfold this at 1. rewrite Hseed1.
    cbn [secrets List.length indices List.map N.of_nat].
    assert ((if c =? 0 then Some c else Some (c + N.of_nat 0)) = Some c) as ->
      by (destruct (c =? 0); cbn [N.of_nat]; rewrite ?N.add_0_r; reflexivity).
    unfold bind.
    rewrite (createRandomBlindedMessages_derived seed keyset _ _ l c w1 Hseed1 Hsplit).
    cbv zeta. eexists. reflexivity. }
  unfold receiveTokenEntry. unfold bind at 1. unfold try_catch.
  unfold receiveTokenEntry_try. cbv zeta. unfold bind at 1. rewrite Hkeys.
  unfold bind at 1. rewrite Hplan. unfold bind at 1. unfold request.
  destruct (CashuMint_split mint (calls w1) (entry_mint tokenEntry) _) as [f|signatures];
    [reflexivity |].
  unfold bind at 1. unfold lift.
  destruct (constructProofs signatures (rs out) (secrets out) keyset); reflexivity.
Qed.
End ReceiveMore.

(* ===================================================================== *)
(* mintTokens and restore                                                *)
(* ===================================================================== *)

Section MintAndRestore.
Context `{Curve} `{Derivation} `{Entropy} `{TokenFormat}.
Variable mint : CashuMint.

(** X15.  A mintTokens that returns has sent, after initKeys, exactly one
    mint request: for the given quote and for outputs of the wallet's
    keyset worth exactly the amount.  The proofs it returns carry the
    amounts of the signatures the mint answered with, whatever they
    are. *)
Theorem mintTokens_requests_amount amount quote0 preference keyset
    (w w1 w' : World) proofs :
  initKeys mint w = (inr keyset, w1) ->
  mintTokens mint amount quote0 preference w = (inr proofs, w') ->
  exists payload signatures,
    calls w' = calls w1 ++ [CallMint payload] /\
    wallet w' = wallet w1 /\
    mint_quote payload = quote0 /\
    sumN (List.map bm_amount (mint_outputs payload)) = amount /\
    Forall (fun bm => bm_id bm = keys_id keyset) (mint_outputs payload) /\
    mint_mint mint (calls w1) payload = inr signatures /\
    List.map proof_amount proofs = List.map sig_amount signatures.
Proof.
  intros Hkeys. unfold mintTokens. unfold bind at 1. rewrite Hkeys.
  unfold bind at 1.
  destruct (createRandomBlindedMessages amount keyset preference None w1)
    as [[e|bt] w2] eqn:Eplan; [discriminate |].
  apply createRandomBlindedMessages_shape in Eplan.
  destruct Eplan as (Hsplit & Hmsgs & Hid & Hw2 & Hc2).
  cbv zeta. unfold bind at 1. unfold request.
  destruct (mint_mint mint (calls w2) _) as [f|signatures] eqn:Emint; [discriminate |].
  unfold lift.
  destruct (constructProofs signatures (rs bt) (secrets bt) keyset) as [e|ps] eqn:Eproofs;
    [discriminate |].
  intros [= <- <-].
  exists (mkPostMintPayload (blindedMessages bt) quote0), signatures.
  cbn [calls wallet mint_quote mint_outputs].
  split; [rewrite Hc2; reflexivity |]. split; [exact Hw2 |]. split; [reflexivity |].
  split; [rewrite Hmsgs; eapply splitAmount_sum; eauto |]. split; [exact Hid |].
  split; [rewrite <- Hc2; exact Emint |].
  eapply constructProofs_amounts; eauto.
Qed.

(** X16.  On a wallet with a seed, the first thing restore sends is the
    restore request, and its outputs are count messages of amount 0
    derived from the indices start, start + 1, ..., start + count - 1 of
    the given keyset; no key is fetched before. *)
Theorem restore_requests_indices seed start count keysetId (w : World) :
  _seed (wallet w) = Some seed ->
  exists more,
    calls (snd (restore mint start count keysetId w))
    = calls w ++
      CallRestore
        (List.map (derived_message seed keysetId)
           (combine (repeat 0 (N.to_nat count)) (indices start (N.to_nat count))))
      :: more.
Proof.
  intros Hseed. unfold restore. unfold bind at 1. unfold this at 1. rewrite Hseed.
  unfold bind at 1.
  rewrite (createBlindedMessages_derived seed keysetId start _ w Hseed). cbv zeta.
  rewrite List.repeat_length. cbn [blindedMessages].
  apply request_first. intros resp seed0 sent.
  apply keeps_bind; [apply keeps_getKeys | intros keys].
  apply keeps_lift, constructProofs_error.
Qed.

(** X17.  The two filters of restore keep the same positions, so that
    the blinding factors and secrets they keep stay paired as planned;
    and when the mint returns every planned output nothing is filtered
    out. *)
Theorem restore_valid_keeps_pairs outputs blindedMessages0 (rs0 : list Z)
    (secrets0 : list bytes) :
  List.length rs0 = List.length secrets0 ->
  restore_valid outputs blindedMessages0 (combine rs0 secrets0)
    = combine (restore_valid outputs blindedMessages0 rs0)
        (restore_valid outputs blindedMessages0 secrets0) /\
  (List.length rs0 = List.length blindedMessages0 ->
   restore_valid blindedMessages0 blindedMessages0 rs0 = rs0).
Proof.
  intros Hlen. split.
  - unfold restore_valid. revert secrets0 blindedMessages0 Hlen.
    induction rs0 as [|r rs0 IH]; intros secrets0 bms Hlen.
    + reflexivity.
    + destruct secrets0 as [|s secrets0]; [discriminate |].
      destruct bms as [|bm bms]; [reflexivity |].
      cbn [combine List.filter snd].
      destruct (existsb _ _); cbn [List.map fst combine];
        rewrite (IH secrets0 bms) by (simpl in Hlen; lia); reflexivity.
  - unfold restore_valid.
    assert (forall (outs : list SerializedBlindedMessage) bms (xs : list Z),
              List.length xs = List.length bms ->
              (forall bm, In bm bms -> In (bm_B_ bm) (List.map bm_B_ outs)) ->
              List.map fst
                (List.filter
                   (fun xb => existsb (String.eqb (bm_B_ (snd xb))) (List.map bm_B_ outs))
                   (combine xs bms)) = xs) as Hall.
    { intros outs bms. induction bms as [|bm bms IH]; intros xs Hxs Hin.
      - destruct xs; [reflexivity | discriminate].
      - destruct xs as [|x xs]; [discriminate |].
        cbn [combine List.filter snd].
        assert (existsb (String.eqb (bm_B_ bm)) (List.map bm_B_ outs) = true) as ->.
        { apply List.existsb_exists. exists (bm_B_ bm).
          split; [apply Hin; left; reflexivity | apply String.eqb_refl]. }
        cbn [List.map fst]. f_equal. apply IH; [simpl in Hxs; lia |].
        intros bm' Hbm'. apply Hin. right. exact Hbm'. }
    intros Hbms. apply Hall; [exact Hbms |].
    intros bm Hbm. apply List.in_map. exact Hbm.
Qed.
End MintAndRestore.

(* ===================================================================== *)
(* State checks and payments from a token                                *)
(* ===================================================================== *)

Section Queries.
Context `{Curve} `{Derivation} `{Entropy} `{TokenFormat}.
Variable mint : CashuMint.
Variable queries : CashuMintQueries.

Lemma filter_sublist {A} (f : A -> bool) (l : list A) : sublist (List.filter f l) l.
Proof.
  induction l as [|x l IH]; [constructor |].
  cbn [List.filter]. destruct (f x); constructor; exact IH.
Qed.

(** X18.  checkProofsSpent asks the mint about the secrets of all the
    proofs, in order, and returns a subsequence of its input: a proof is
    returned exactly when the first state the mint reports for its secret
    is SPENT.  Proofs the mint says nothing about are not returned, and
    the wallet is not touched. *)
Theorem checkProofsSpent_returns_spent {T} (secret_of : T -> string) (proofs : list T)
    (w w' : World) spent :
  checkProofsSpent queries secret_of proofs w = (inr spent, w') ->
  exists states,
    mint_check queries (calls w) (List.map secret_of proofs) = inr states /\
    wallet w' = wallet w /\
    sublist spent proofs /\
    forall p,
      In p spent <->
      In p proofs /\
      exists st,
        List.find (fun st => String.eqb (state_secret st) (secret_of p)) states = Some st /\
        state_state st = SPENT.
Proof.
  unfold checkProofsSpent. cbv zeta. unfold bind, ask.
  destruct (mint_check queries (calls w) (List.map secret_of proofs)) as [f|states];
    [discriminate |].
  unfold ret. intros [= <- <-]. exists states.
  split; [reflexivity |]. split; [reflexivity |]. split; [apply filter_sublist |].
  intros p. rewrite List.filter_In. split.
  - intros [Hin Hst]. split; [exact Hin |].
    destruct (List.find _ states) as [st|]; [|discriminate].
    exists st. split; [reflexivity |]. destruct (state_state st); try discriminate.
    reflexivity.
  - intros [Hin (st & Hfind & Hspent)]. split; [exact Hin |].
    rewrite Hfind, Hspent. reflexivity.
Qed.

(** X19.  payLnInvoiceWithToken with a melt quote melts the proofs of
    those entries of the decoded token whose mint is the url of the
    wallet's mint, and only those: unless the plan stops on the missing
    seed, the first request is the melt request and a proof is among its
    inputs exactly when it belongs to such an entry.  A token of another
    mint is not rejected; the melt is then requested with no inputs. *)
Theorem payLnInvoiceWithToken_melts_own_mint invoice token0 t meltQuote keysetId counter
    (w : World) :
  getDecodedToken token0 = Some t ->
  counter = None \/ _seed (wallet w) <> None ->
  exists payload more,
    calls (snd (payLnInvoiceWithToken mint queries invoice token0 (Some meltQuote)
                  keysetId counter w))
      = calls w ++ CallMelt payload :: more /\
    melt_quote payload = quote meltQuote /\
    (forall p,
       In p (melt_inputs payload) <->
       exists e, In e (token t) /\ entry_mint e = mintUrl mint /\ In p (entry_proofs e)).
Proof.
  intros Hdecode Hmode. unfold payLnInvoiceWithToken. rewrite Hdecode. cbv zeta.
  unfold payLnInvoice. unfold bind at 1. unfold ret at 1.
  destruct (meltTokens_plan_first mint) as (k & Hk & ->).
  set (proofs := flat_map entry_proofs _).
  destruct (createBlankOutputs (fee_reserve meltQuote) _ counter w)
    as [[e|blank] w1] eqn:Hblank.
  - exfalso. unfold createBlankOutputs in Hblank.
    rewrite createBlindedMessages_unfold in Hblank.
    destruct counter as [c|], (_seed (wallet w)) as [s|]; try discriminate.
    destruct Hmode; congruence.
  - unfold createBlankOutputs in Hblank. apply createBlindedMessages_shape in Hblank.
    destruct Hblank as (_ & _ & _ & _ & _ & _ & Hcalls).
    cbv zeta.
    set (payload := mkMeltPayload (quote meltQuote) proofs (blindedMessages blank)).
    destruct (request_first (CallMelt payload) (fun h => mint_melt mint h payload)
                (k blank) w1 (Hk blank)) as [more Hmore].
    exists payload, more. rewrite Hmore, Hcalls. split; [reflexivity |].
    split; [reflexivity |]. intros p. cbn [payload melt_inputs]. unfold proofs.
    rewrite List.in_flat_map. split.
    + intros (e & He & Hp). apply List.filter_In in He. destruct He as [He Hurl].
      apply String.eqb_eq in Hurl. eauto.
    + intros (e & He & Hurl & Hp). exists e. split; [|exact Hp].
      apply List.filter_In. split; [exact He | apply String.eqb_eq; exact Hurl].
Qed.
End Queries.

(* ===================================================================== *)
(* Denominations and value under a mint that signs as requested          *)
(* ===================================================================== *)

Section Denominations.
Context `{Curve} `{Derivation} `{Entropy} `{TokenFormat}.
Variable mint : CashuMint.

(** X20.  Under a mint that signs what it is asked to sign: with a
    preference, the send proofs of send have exactly the preferred
    denominations, each as often as preferred and in the preferred order;
    without one, they either have the denominations of the default split
    of the amount or are a prefix of the input proofs, returned as they
    came. *)
Theorem send_denominations amount proofs preference counter (w w' : World) result :
  signs_as_requested mint ->
  send mint amount proofs preference counter w = (inr result, w') ->
  match preference with
  | Some p => List.map proof_amount (send_proofs result) = expand_preference p
  | None =>
      List.map proof_amount (send_proofs result) = default_split amount \/
      exists rest, proofs = send_proofs result ++ rest
  end.
Proof.
  intros Hmint. unfold send.
  set (a := match preference with
            | Some p => preference_total p
            | None => amount
            end).
  unfold bind at 1. destruct (initKeys mint w) as [[e|keyset] w1]; [discriminate |].
  destruct (select_prefix a proofs 0 [] []) as (s & k & Hsk & Hfold).
  rewrite Hfold. cbn [List.app]. rewrite N.add_0_l.
  destruct (N.ltb_spec (total_amount s) a) as [Hlt | Hge]; [discriminate |].
  destruct (_ || _) eqn:Hbranch.
  - unfold splitReceive. cbv zeta. unfold bind at 1.
    destruct (createSplitPayload a s keyset preference counter w1)
      as [[e|[payload out]] w2] eqn:Eplan; [discriminate |].
    apply createSplitPayload_shape in Eplan.
    destruct Eplan as (sendAmounts & Hsend & Hamounts & Hmsgs & _ & Hpayload & _ & _).
    unfold bind at 1. unfold request.
    destruct (mint_split mint (calls w2) payload) as [f|signatures] eqn:Eswap;
      [discriminate |].
    apply Hmint in Eswap. unfold bind at 1. unfold lift.
    destruct (constructProofs signatures (rs out) (secrets out) keyset)
      as [e|proofs0] eqn:Eproofs; [discriminate |].
    apply constructProofs_amounts in Eproofs.
    assert (List.map proof_amount proofs0
            = default_split (total_amount s - a) ++ sendAmounts) as Hmap.
    { rewrite Eproofs, Eswap, Hpayload. cbn [split_outputs]. congruence. }
    destruct (keep_exact (total_amount s - a) (default_split (total_amount s - a))
                sendAmounts (default_split_positive _) proofs0 0 [] Hmap)
      as (k' & s' & Hks & Hk' & Hs' & Hloop).
    { rewrite default_split_sum. lia. }
    rewrite Hloop. unfold ret. intros [= <- _]. cbn [send_proofs].
    rewrite Hs'. unfold splitAmount in Hsend. unfold a in Hsend.
    destruct preference as [p|].
    + destruct (forallb _ p); [|discriminate].
      rewrite N.eqb_refl in Hsend. congruence.
    + left. congruence.
  - unfold ret. intros [= <- _]. cbn [send_proofs].
    destruct preference as [p|]; [rewrite Bool.orb_true_r in Hbranch; discriminate |].
    right. exists k. exact Hsk.
Qed.

(** X21.  Under a mint whose split endpoint signs what it is asked to
    sign, the proofs the try block of receiveTokenEntry returns are worth
    exactly the proofs of the entry. *)
Theorem receiveTokenEntry_preserves_value tokenEntry preference counter
    (w w' : World) proofs bad :
  static_split_signs_as_requested mint ->
  receiveTokenEntry_try mint tokenEntry preference counter w = (inr (proofs, bad), w') ->
  total_amount proofs = total_amount (entry_proofs tokenEntry).
Proof.
  intros Hmint. unfold receiveTokenEntry_try. cbv zeta. unfold bind at 1.
  destruct (initKeys mint w) as [[e|keyset] w1]; [discriminate |].
  unfold bind at 1.
  destruct (createSplitPayload _ _ keyset _ counter w1) as [[e|[payload out]] w2] eqn:Eplan;
    [discriminate |].
  apply createSplitPayload_outputs_worth_inputs in Eplan; [|lia].
  destruct Eplan as (_ & Hsum & _).
  unfold bind at 1. unfold request.
  destruct (CashuMint_split mint (calls w2) (entry_mint tokenEntry) payload)
    as [f|signatures] eqn:Eswap; [discriminate |].
  apply Hmint in Eswap. unfold bind, lift.
  destruct (constructProofs signatures (rs out) (secrets out) keyset) as [e|ps] eqn:Eproofs;
    [discriminate |].
  apply constructProofs_amounts in Eproofs.
  unfold ret. intros [= <- _ _].
  rewrite total_amount_sumN, Eproofs, Eswap. exact Hsum.
Qed.
End Denominations.

(* ===================================================================== *)
(* The class at work on the sample mint                                  *)
(* ===================================================================== *)

#[local] Existing Instance sample_curve.
#[local] Existing Instance sample_derivation.
#[local] Existing Instance sample_entropy.
#[local] Existing Instance sample_format.

Lemma sample_mint_signs_as_requested : signs_as_requested sample_mint.
Proof.
  intros sent payload signatures. cbn. intros [= <-].
  rewrite List.map_map. reflexivity.
Qed.

(* C1: send(1, [proof of 3], undefined, 0) on a wallet with a seed. *)
Lemma createSplitPayload_counter_zero_reuses_index_witness :
  _seed (wallet (sample_world sample_seeded_wallet)) = Some [x2a] /\
  proof_amount (sample_proof 3) = 3 /\
  exists out,
    createSplitPayload 1 [sample_proof 3] sample_keys None (Some 0)
      (sample_world sample_seeded_wallet)
      = (inr out, sample_world sample_seeded_wallet) /\
    amounts (snd out) = [2; 1] /\
    secrets (snd out) =
      [derived_secret [x2a] (keys_id sample_keys) 0;
       derived_secret [x2a] (keys_id sample_keys) 0].
Proof.
  split; [reflexivity |]. split; [reflexivity |].
  apply (createSplitPayload_counter_zero_reuses_index [x2a] sample_keys (sample_proof 3)
           (sample_world sample_seeded_wallet)); reflexivity.
Defined.

(* C2: receive of a token with one entry. *)
Lemma receive_token_field_is_nested_witness :
  exists result w',
    receive sample_mint (inr (mkToken [sample_entry_1] None)) None None
      (sample_world sample_wallet) = (inr result, w') /\
    js_isArray (js_get "token" (ReceiveResponse_value result)) = false /\
    js_get "token" (ReceiveResponse_value result)
      = JsObject [("token"%string,
                   JsArray (List.map TokenEntry_value (token (rr_token result))))].
Proof.
  eexists _, _. split; [vm_compute; reflexivity |].
  eapply (receive_token_field_is_nested sample_mint
            (inr (mkToken [sample_entry_1] None)) None None (sample_world sample_wallet)).
  vm_compute; reflexivity.
Defined.

(** C6 (counterexample).  The fee reserve 2^49 + 1 = 562949953421313 has
    50 as the ceiling of its logarithm, but its logarithm rounds to 49 in
    binary64 and createBlankOutputs plans 49 outputs. *)
Lemma createBlankOutputs_count_rounds_down :
  is_ceil_log2 562949953421313 50 /\
  option_map (fun out => List.length (blindedMessages out))
    (match fst (createBlankOutputs 562949953421313 "009a1f293253e41e" None
                  (sample_world sample_wallet)) with
     | inr out => Some out
     | inl _ => None
     end) = Some 49%nat.
Proof.
  split; [| vm_compute; reflexivity].
  pose proof (log2_up_is_ceil 562949953421313 ltac:(lia)) as Hceil.
  replace (N.log2_up 562949953421313) with 50 in Hceil by (vm_compute; reflexivity).
  exact Hceil.
Qed.

(* C6: a fee reserve of 5 gets three blank outputs. *)
Lemma createBlankOutputs_count_witness :
  5 <= 2 ^ 48 /\
  match fst (createBlankOutputs 5 "009a1f293253e41e" None (sample_world sample_wallet)) with
  | inr out =>
      Forall (fun bm => bm_amount bm = 1) (blindedMessages out) /\
      ((5 = 0 /\ List.length (blindedMessages out) = 0%nat) \/
       (0 < 5 /\
        exists k, is_ceil_log2 5 k /\
                  N.of_nat (List.length (blindedMessages out)) = N.max 1 k))
  | inl e => e = NoSeed /\ @None N <> None /\ _seed (wallet (sample_world sample_wallet)) = None
  end.
Proof.
  split; [vm_compute; discriminate |].
  apply (createBlankOutputs_count 5 "009a1f293253e41e" None (sample_world sample_wallet)).
  vm_compute; discriminate.
Defined.

(** C3 (counterexample).  send(1, [p]) with p worth 1 returns p itself as
    send, and nothing has been sent to the mint: there was no swap. *)
Lemma send_exact_performs_no_swap :
  fst (send sample_mint 1 [sample_proof 1] None None (sample_world sample_wallet))
    = inr (mkSendResponse [] [sample_proof 1]) /\
  calls (snd (send sample_mint 1 [sample_proof 1] None None (sample_world sample_wallet)))
    = [].
Proof. split; vm_compute; reflexivity. Qed.

Lemma send_exact_returns_selected_witness :
  initKeys sample_mint (sample_world sample_wallet)
    = (inr sample_keys, sample_world sample_wallet) /\
  fold_left (select_step 3) ([sample_proof 1; sample_proof 2] ++ [sample_proof 4])
    (0, [], []) = (3, [sample_proof 1; sample_proof 2], [sample_proof 4]) /\
  send sample_mint 3 ([sample_proof 1; sample_proof 2] ++ [sample_proof 4]) None (Some 7)
    (sample_world sample_wallet)
    = (inr (mkSendResponse [sample_proof 4] [sample_proof 1; sample_proof 2]),
       sample_world sample_wallet).
Proof.
  split; [reflexivity |]. split; [reflexivity |].
  apply (send_exact_returns_selected sample_mint 3 [sample_proof 1; sample_proof 2]
           [sample_proof 4] (Some 7) sample_keys (sample_world sample_wallet)
           (sample_world sample_wallet)); reflexivity.
Defined.

(* C4: send(5, [4; 2; 1]) swaps the proofs of 4 and 2 for 1 | 1, 4. *)
Lemma send_conserves_value_witness :
  signs_as_requested sample_mint /\
  exists result w',
    send sample_mint 5 [sample_proof 4; sample_proof 2; sample_proof 1] None None
      (sample_world sample_wallet) = (inr result, w') /\
    List.map proof_amount (send_proofs result) = [1; 4] /\
    List.map proof_amount (returnChange result) = [1; 1] /\
    total_amount (send_proofs result) = 5 /\
    total_amount (send_proofs result) + total_amount (returnChange result)
      = total_amount [sample_proof 4; sample_proof 2; sample_proof 1].
Proof.
  split; [exact sample_mint_signs_as_requested |].
  eexists _, _. split; [vm_compute; reflexivity |].
  split; [reflexivity |]. split; [reflexivity |].
  eapply (send_conserves_value sample_mint 5
            [sample_proof 4; sample_proof 2; sample_proof 1] None None
            (sample_world sample_wallet)).
  - exact sample_mint_signs_as_requested.
  - vm_compute; reflexivity.
Defined.

(** C5 (counterexample).  On a wallet without a seed, send with counter 0
    and an exact selection returns normally, and receive with counter 0
    returns normally with the entry among the entries with errors:
    neither fails with a no-seed error. *)
Lemma counter_without_seed_can_return :
  _seed sample_wallet = None /\
  fst (send sample_mint 1 [sample_proof 1] None (Some 0) (sample_world sample_wallet))
    = inr (mkSendResponse [] [sample_proof 1]) /\
  fst (receive sample_mint (inr (mkToken [sample_entry_1] None)) None (Some 0)
         (sample_world sample_wallet))
    = inr (mkReceiveResponse (mkToken [] None) (Some (mkToken [sample_entry_1] None))).
Proof. repeat split; vm_compute; reflexivity. Qed.

Lemma no_seed_error_amended_witness :
  _seed (wallet (sample_world sample_wallet)) = None /\
  (forall meltQuote proofsToSend keysetId c,
     meltTokens sample_mint meltQuote proofsToSend keysetId (Some c)
       (sample_world sample_wallet)
       = (inl NoSeed, sample_world sample_wallet)) /\
  (Some 3 = None \/ _seed (wallet (sample_world sample_seeded_wallet)) <> None) /\
  (forall amount proofs preference,
     fst (send sample_mint amount proofs preference (Some 3)
            (sample_world sample_seeded_wallet)) <> inl NoSeed).
Proof.
  split; [reflexivity |]. split.
  - destruct (no_seed_error_amended sample_mint (Some 0) (sample_world sample_wallet))
      as (_ & Hnone & _ & _).
    destruct (Hnone eq_refl) as (Hmelt & _). exact Hmelt.
  - assert (Some 3 = None \/ _seed (wallet (sample_world sample_seeded_wallet)) <> None)
      as Hmode by (right; discriminate).
    split; [exact Hmode |].
    destruct (no_seed_error_amended sample_mint (Some 3)
                (sample_world sample_seeded_wallet)) as (_ & _ & Hnever & _).
    destruct (Hnever Hmode NoSeed eq_refl) as (Hsend & _). exact Hsend.
Defined.


(* C8: two runs from different states of the wallet and of the entropy
   source. *)
Lemma createBlindedMessages_deterministic_witness :
  _seed (wallet (sample_world sample_seeded_wallet)) = Some [x2a] /\
  _seed (wallet sample_busy_world) = Some [x2a] /\
  (exists out,
     fst (createBlindedMessages [1; 2; 8] "009a1f293253e41e" (Some 0)
            (sample_world sample_seeded_wallet)) = inr out /\
     fst (createBlindedMessages [1; 2; 8] "009a1f293253e41e" (Some 0)
            sample_busy_world) = inr out) /\
  rng (snd (createBlindedMessages [1; 2; 8] "009a1f293253e41e" (Some 0)
              (sample_world sample_seeded_wallet)))
    = rng (sample_world sample_seeded_wallet) /\
  rng (snd (createBlindedMessages [1; 2; 8] "009a1f293253e41e" (Some 0)
              sample_busy_world))
    = rng sample_busy_world.
Proof.
  split; [reflexivity |]. split; [reflexivity |].
  apply (createBlindedMessages_deterministic [x2a] "009a1f293253e41e" 0 [1; 2; 8]
           (sample_world sample_seeded_wallet) sample_busy_world); reflexivity.
Defined.

(* C9: the second entry of the sample token fails at its mint; the third
   one is still swapped. *)
Lemma receive_isolates_entry_failures_witness :
  exists oks1 bads1 w1 err w2 oks3 bads3 w3,
    token sample_token = [sample_entry_1] ++ sample_entry_2 :: [sample_entry_3] /\
    entry_proofs sample_entry_2 <> [] /\
    receive_entries sample_mint [sample_entry_1] None None (sample_world sample_wallet)
      = (inr (oks1, bads1), w1) /\
    receiveTokenEntry_try sample_mint sample_entry_2 None None w1 = (inl err, w2) /\
    err = MintError (mkMintFailure 11001 "Token already spent.") /\
    receive_entries sample_mint [sample_entry_3] None None w2 = (inr (oks3, bads3), w3) /\
    List.map entry_mint oks3 = ["https://mint.example"%string] /\
    bads3 = [] /\
    receive sample_mint (inr sample_token) None None (sample_world sample_wallet)
      = (inr (mkReceiveResponse
                (mkToken (oks1 ++ oks3) None)
                (Some (mkToken (bads1 ++ sample_entry_2 :: bads3) None))), w3).
Proof.
  destruct (receive_isolates_entry_failures sample_mint sample_token None None
              (sample_world sample_wallet)) as [_ Hisolate].
  destruct (receive_entries sample_mint [sample_entry_1] None None
              (sample_world sample_wallet)) as [[e|[oks1 bads1]] w1] eqn:E1;
    [vm_compute in E1; discriminate |].
  destruct (receiveTokenEntry_try sample_mint sample_entry_2 None None w1)
    as [[err|r] w2] eqn:E2.
  - destruct (Hisolate [sample_entry_1] sample_entry_2 [sample_entry_3]
                oks1 bads1 w1 err w2 eq_refl ltac:(discriminate) E1 E2)
      as (oks3 & bads3 & w3 & Hafter & Hreceive).
    pose proof E1 as E1c. vm_compute in E1c. injection E1c as <- <- <-.
    pose proof E2 as E2c. vm_compute in E2c. injection E2c as <- <-.
    pose proof Hafter as Hafterc. vm_compute in Hafterc. injection Hafterc as <- <- <-.
    eexists _, _, _, _, _, _, _, _.
    split; [reflexivity |]. split; [discriminate |].
    split; [exact E1 |]. split; [exact E2 |]. split; [reflexivity |].
    split; [exact Hafter |]. split; [reflexivity |]. split; [reflexivity |].
    exact Hreceive.
  - vm_compute in E1. injection E1 as <- <- <-. vm_compute in E2. discriminate.
Defined.

(* ===================================================================== *)
(* Further runs on the sample mint                                       *)
(* ===================================================================== *)

Lemma sample_mint_static_split_signs_as_requested :
  static_split_signs_as_requested sample_mint.
Proof.
  intros sent url payload signatures. cbn.
  destruct (String.eqb url _); [discriminate |]. intros [= <-].
  rewrite List.map_map. reflexivity.
Qed.

Lemma initKeys_fetches_once_witness :
  exists w1,
    initKeys sample_mint (sample_world sample_fresh_wallet) = (inr sample_keys, w1) /\
    keys_id sample_keys <> EmptyString /\
    calls w1 = [CallGetKeys None None] /\
    _keys (wallet w1) = Some sample_keys /\
    initKeys sample_mint w1 = (inr sample_keys, w1).
Proof.
  eexists. split; [vm_compute; reflexivity |]. split; [discriminate |].
  split; [reflexivity |].
  apply (initKeys_fetches_once sample_mint (sample_world sample_fresh_wallet));
    [vm_compute; reflexivity | discriminate].
Defined.

Lemma initKeys_failure_leaves_cache_witness :
  exists e w1,
    initKeys sample_mint_down (sample_world sample_fresh_wallet) = (inl e, w1) /\
    (exists f, e = MintError f) /\
    wallet w1 = wallet (sample_world sample_fresh_wallet) /\
    calls w1 = calls (sample_world sample_fresh_wallet) ++ [CallGetKeys None None].
Proof.
  eexists _, _. split; [vm_compute; reflexivity |].
  apply (initKeys_failure_leaves_cache sample_mint_down (sample_world sample_fresh_wallet)).
  vm_compute; reflexivity.
Defined.

Lemma createBlindedMessages_without_counter_ignores_seed_witness :
  rng (sample_world sample_wallet) = rng (sample_world sample_seeded_wallet) /\
  fst (createBlindedMessages [1; 2] "009a1f293253e41e" None (sample_world sample_wallet))
    = fst (createBlindedMessages [1; 2] "009a1f293253e41e" None
             (sample_world sample_seeded_wallet)) /\
  rng (snd (createBlindedMessages [1; 2] "009a1f293253e41e" None
              (sample_world sample_wallet)))
    = rng (snd (createBlindedMessages [1; 2] "009a1f293253e41e" None
                  (sample_world sample_seeded_wallet))).
Proof.
  split; [reflexivity |].
  apply (createBlindedMessages_without_counter_ignores_seed [1; 2] "009a1f293253e41e"
           (sample_world sample_wallet) (sample_world sample_seeded_wallet)).
  reflexivity.
Defined.

Lemma createBlindedMessages_one_output_per_amount_witness :
  exists out w',
    createBlindedMessages [4; 1; 1] "009a1f293253e41e" None (sample_world sample_wallet)
      = (inr out, w') /\
    List.map bm_amount (blindedMessages out) = [4; 1; 1] /\
    Forall (fun bm => bm_id bm = "009a1f293253e41e"%string) (blindedMessages out) /\
    List.length (secrets out) = List.length [4; 1; 1] /\
    List.length (rs out) = List.length [4; 1; 1] /\
    amounts out = [4; 1; 1] /\
    wallet w' = wallet (sample_world sample_wallet) /\
    calls w' = calls (sample_world sample_wallet).
Proof.
  eexists _, _. split; [vm_compute; reflexivity |].
  apply (createBlindedMessages_one_output_per_amount [4; 1; 1] "009a1f293253e41e" None
           (sample_world sample_wallet)).
  vm_compute; reflexivity.
Defined.

Lemma createBlindedMessages_position_index_witness :
  _seed (wallet (sample_world sample_seeded_wallet)) = Some [x2a] /\
  (2 < List.length [1; 2; 8])%nat /\
  exists out,
    createBlindedMessages [1; 2; 8] "009a1f293253e41e" (Some 5)
      (sample_world sample_seeded_wallet)
      = (inr out, sample_world sample_seeded_wallet) /\
    nth_error (secrets out) 2
      = Some (derived_secret [x2a] "009a1f293253e41e" (5 + N.of_nat 2)) /\
    nth_error (rs out) 2 = Some (derived_r [x2a] "009a1f293253e41e" (5 + N.of_nat 2)).
Proof.
  split; [reflexivity |]. split; [cbn; lia |].
  apply (createBlindedMessages_position_index [x2a] "009a1f293253e41e" 5 [1; 2; 8] 2
           (sample_world sample_seeded_wallet)); [reflexivity | cbn; lia].
Defined.

Lemma createSplitPayload_balanced_witness :
  exists payload out w',
    createSplitPayload 5 [sample_proof 4; sample_proof 2] sample_keys None None
      (sample_world sample_wallet) = (inr (payload, out), w') /\
    5 <= total_amount [sample_proof 4; sample_proof 2] /\
    List.map bm_amount (split_outputs payload) = [1; 1; 4] /\
    split_inputs payload = [sample_proof 4; sample_proof 2] /\
    sumN (List.map bm_amount (split_outputs payload))
      = total_amount [sample_proof 4; sample_proof 2] /\
    Forall (fun bm => bm_id bm = keys_id sample_keys) (split_outputs payload) /\
    wallet w' = wallet (sample_world sample_wallet) /\
    calls w' = calls (sample_world sample_wallet).
Proof.
  eexists _, _, _. split; [vm_compute; reflexivity |].
  split; [vm_compute; discriminate |]. split; [reflexivity |].
  eapply (createSplitPayload_balanced 5 [sample_proof 4; sample_proof 2] sample_keys None
            None (sample_world sample_wallet));
    [vm_compute; reflexivity | vm_compute; discriminate].
Defined.

Lemma send_not_enough_funds_witness :
  initKeys sample_mint (sample_world sample_wallet)
    = (inr sample_keys, sample_world sample_wallet) /\
  total_amount [sample_proof 1] < 2 /\
  send sample_mint 2 [sample_proof 1] None None (sample_world sample_wallet)
    = (inl NotEnoughFunds, sample_world sample_wallet).
Proof.
  split; [reflexivity |]. split; [reflexivity |].
  destruct (send_not_enough_funds sample_mint 2 [sample_proof 1] None None sample_keys
              (sample_world sample_wallet) (sample_world sample_wallet) eq_refl)
    as [_ Hfail].
  apply Hfail. reflexivity.
Defined.

Lemma send_keeps_unselected_witness :
  exists result w' selected rest fresh,
    send sample_mint 5 [sample_proof 4; sample_proof 2; sample_proof 1] None None
      (sample_world sample_wallet) = (inr result, w') /\
    [sample_proof 4; sample_proof 2; sample_proof 1] = selected ++ rest /\
    returnChange result = fresh ++ rest /\
    5 <= total_amount selected /\
    (forall s1 s2, selected = s1 ++ s2 -> s2 <> [] -> total_amount s1 < 5).
Proof.
  destruct (send sample_mint 5 [sample_proof 4; sample_proof 2; sample_proof 1] None None
              (sample_world sample_wallet)) as [[e|result] w'] eqn:Erun;
    [vm_compute in Erun; discriminate |].
  destruct (send_keeps_unselected sample_mint 5
              [sample_proof 4; sample_proof 2; sample_proof 1] None None
              (sample_world sample_wallet) w' result Erun)
    as (selected & rest & fresh & Hsplit & Hchange & Hcover & Hmin).
  exists result, w', selected, rest, fresh. auto.
Defined.

Lemma send_single_split_request_witness :
  exists result w',
    initKeys sample_mint (sample_world sample_wallet)
      = (inr sample_keys, sample_world sample_wallet) /\
    send sample_mint 5 [sample_proof 4; sample_proof 2; sample_proof 1] None None
      (sample_world sample_wallet) = (inr result, w') /\
    wallet w' = wallet (sample_world sample_wallet) /\
    (calls w' = calls (sample_world sample_wallet) \/
     exists payload rest,
       calls w' = calls (sample_world sample_wallet) ++ [CallSplit payload] /\
       [sample_proof 4; sample_proof 2; sample_proof 1] = split_inputs payload ++ rest /\
       sumN (List.map bm_amount (split_outputs payload))
         = total_amount (split_inputs payload) /\
       Forall (fun bm => bm_id bm = keys_id sample_keys) (split_outputs payload)).
Proof.
  destruct (send sample_mint 5 [sample_proof 4; sample_proof 2; sample_proof 1] None None
              (sample_world sample_wallet)) as [[e|result] w'] eqn:Erun;
    [vm_compute in Erun; discriminate |].
  exists result, w'. split; [reflexivity |]. split; [reflexivity |].
  exact (send_single_split_request sample_mint 5
           [sample_proof 4; sample_proof 2; sample_proof 1] None None sample_keys
           (sample_world sample_wallet) (sample_world sample_wallet) w' result
           eq_refl Erun).
Defined.

Lemma receive_accounts_for_entries_witness :
  exists result w',
    receive sample_mint
      (inr (mkToken [sample_entry_1; mkTokenEntry "https://mint.example" [];
                     sample_entry_2; sample_entry_3] None))
      None None (sample_world sample_wallet) = (inr result, w') /\
    List.map entry_mint (token (rr_token result))
      = ["https://mint.example"; "https://mint.example"]%string /\
    tokensWithErrors_entries result = [sample_entry_2] /\
    (List.length (token (rr_token result)) + List.length (tokensWithErrors_entries result)
     = List.length
         (List.filter has_proofs
            [sample_entry_1; mkTokenEntry "https://mint.example" [];
             sample_entry_2; sample_entry_3]))%nat.
Proof.
  eexists _, _. split; [vm_compute; reflexivity |].
  split; [reflexivity |]. split; [reflexivity |].
  eapply (receive_accounts_for_entries sample_mint
            (mkToken [sample_entry_1; mkTokenEntry "https://mint.example" [];
                      sample_entry_2; sample_entry_3] None)
            None None (sample_world sample_wallet)).
  vm_compute; reflexivity.
Defined.

Lemma receiveTokenEntry_swaps_at_entry_mint_witness :
  exists r w' keyset w1 payload,
    receiveTokenEntry_try sample_mint sample_entry_3 None None
      (sample_world sample_fresh_wallet) = (inr r, w') /\
    initKeys sample_mint (sample_world sample_fresh_wallet) = (inr keyset, w1) /\
    wallet w' = wallet w1 /\
    calls w' = calls w1 ++ [CallStaticSplit (entry_mint sample_entry_3) payload] /\
    split_inputs payload = entry_proofs sample_entry_3 /\
    sumN (List.map bm_amount (split_outputs payload))
      = total_amount (entry_proofs sample_entry_3) /\
    Forall (fun bm => bm_id bm = keys_id keyset) (split_outputs payload).
Proof.
  destruct (receiveTokenEntry_try sample_mint sample_entry_3 None None
              (sample_world sample_fresh_wallet)) as [[e|r] w'] eqn:Erun;
    [vm_compute in Erun; discriminate |].
  destruct (receiveTokenEntry_swaps_at_entry_mint sample_mint sample_entry_3 None None
              (sample_world sample_fresh_wallet) w' r Erun)
    as (keyset & w1 & payload & Hrest).
  exists r, w', keyset, w1, payload. split; [reflexivity | exact Hrest].
Defined.

Lemma receiveTokenEntry_starts_at_counter_witness :
  _seed (wallet (sample_world sample_seeded_wallet)) = Some [x2a] /\
  initKeys sample_mint (sample_world sample_seeded_wallet)
    = (inr sample_keys, sample_world sample_seeded_wallet) /\
  splitAmount (total_amount (entry_proofs sample_entry_3))
    (Some (getDefaultAmountPreference (total_amount (entry_proofs sample_entry_3))))
    = inr [4] /\
  calls (snd (receiveTokenEntry sample_mint sample_entry_3 None (Some 9)
                (sample_world sample_seeded_wallet)))
    = calls (sample_world sample_seeded_wallet) ++
      [CallStaticSplit (entry_mint sample_entry_3)
         (mkSplitPayload (entry_proofs sample_entry_3)
            (List.map (derived_message [x2a] (keys_id sample_keys))
               (combine [4] (indices 9 (List.length [4])))))].
Proof.
  split; [reflexivity |]. split; [reflexivity |]. split; [reflexivity |].
  apply (receiveTokenEntry_starts_at_counter sample_mint [x2a] sample_entry_3 None 9
           sample_keys [4] (sample_world sample_seeded_wallet)
           (sample_world sample_seeded_wallet)); reflexivity.
Defined.

Lemma mintTokens_requests_amount_witness :
  exists proofs w' payload signatures,
    initKeys sample_mint (sample_world sample_wallet)
      = (inr sample_keys, sample_world sample_wallet) /\
    mintTokens sample_mint 7 "quote1" None (sample_world sample_wallet)
      = (inr proofs, w') /\
    List.map proof_amount proofs = [1; 2; 4] /\
    calls w' = calls (sample_world sample_wallet) ++ [CallMint payload] /\
    wallet w' = wallet (sample_world sample_wallet) /\
    mint_quote payload = "quote1"%string /\
    sumN (List.map bm_amount (mint_outputs payload)) = 7 /\
    Forall (fun bm => bm_id bm = keys_id sample_keys) (mint_outputs payload) /\
    mint_mint sample_mint (calls (sample_world sample_wallet)) payload = inr signatures /\
    List.map proof_amount proofs = List.map sig_amount signatures.
Proof.
  destruct (mintTokens sample_mint 7 "quote1" None (sample_world sample_wallet))
    as [[e|proofs] w'] eqn:Erun; [vm_compute in Erun; discriminate |].
  destruct (mintTokens_requests_amount sample_mint 7 "quote1" None sample_keys
              (sample_world sample_wallet) (sample_world sample_wallet) w' proofs
              eq_refl Erun) as (payload & signatures & Hrest).
  exists proofs, w', payload, signatures.
  split; [reflexivity |]. split; [reflexivity |].
  split; [vm_compute in Erun; injection Erun as <- _; reflexivity | exact Hrest].
Defined.

Lemma restore_requests_indices_witness :
  _seed (wallet (sample_world sample_seeded_wallet)) = Some [x2a] /\
  exists more,
    calls (snd (restore sample_mint 3 2 "009a1f293253e41e"
                  (sample_world sample_seeded_wallet)))
    = calls (sample_world sample_seeded_wallet) ++
      CallRestore
        (List.map (derived_message [x2a] "009a1f293253e41e")
           (combine (repeat 0 (N.to_nat 2)) (indices 3 (N.to_nat 2))))
      :: more.
Proof.
  split; [reflexivity |].
  apply (restore_requests_indices sample_mint [x2a] 3 2 "009a1f293253e41e"
           (sample_world sample_seeded_wallet)).
  reflexivity.
Defined.

Lemma restore_valid_keeps_pairs_witness :
  List.length [11; 12; 13]%Z = List.length [[x01]; [x02]; [x03]] /\
  restore_valid [mkBlindedMessage 0 "02b" "id"]
    [mkBlindedMessage 0 "02a" "id"; mkBlindedMessage 0 "02b" "id";
     mkBlindedMessage 0 "02c" "id"]
    (combine [11; 12; 13]%Z [[x01]; [x02]; [x03]]) = [(12%Z, [x02])] /\
  restore_valid [mkBlindedMessage 0 "02b" "id"]
    [mkBlindedMessage 0 "02a" "id"; mkBlindedMessage 0 "02b" "id";
     mkBlindedMessage 0 "02c" "id"]
    (combine [11; 12; 13]%Z [[x01]; [x02]; [x03]])
    = combine
        (restore_valid [mkBlindedMessage 0 "02b" "id"]
           [mkBlindedMessage 0 "02a" "id"; mkBlindedMessage 0 "02b" "id";
            mkBlindedMessage 0 "02c" "id"] [11; 12; 13]%Z)
        (restore_valid [mkBlindedMessage 0 "02b" "id"]
           [mkBlindedMessage 0 "02a" "id"; mkBlindedMessage 0 "02b" "id";
            mkBlindedMessage 0 "02c" "id"] [[x01]; [x02]; [x03]]).
Proof.
  split; [reflexivity |]. split; [reflexivity |].
  apply (restore_valid_keeps_pairs [mkBlindedMessage 0 "02b" "id"]
           [mkBlindedMessage 0 "02a" "id"; mkBlindedMessage 0 "02b" "id";
            mkBlindedMessage 0 "02c" "id"] [11; 12; 13]%Z [[x01]; [x02]; [x03]]).
  reflexivity.
Defined.

(* The mint reports UNSPENT first and SPENT later for the secret bb, and
   nothing for dd. *)
Lemma checkProofsSpent_returns_spent_witness :
  exists spent w' states,
    checkProofsSpent sample_queries proof_secret
      [sample_secret_proof "bb"; sample_secret_proof "aa"; sample_secret_proof "dd"]
      (sample_world sample_wallet) = (inr spent, w') /\
    spent = [sample_secret_proof "aa"] /\
    mint_check sample_queries (calls (sample_world sample_wallet))
      (List.map proof_secret
         [sample_secret_proof "bb"; sample_secret_proof "aa"; sample_secret_proof "dd"])
      = inr states /\
    wallet w' = wallet (sample_world sample_wallet) /\
    sublist spent
      [sample_secret_proof "bb"; sample_secret_proof "aa"; sample_secret_proof "dd"].
Proof.
  destruct (checkProofsSpent sample_queries proof_secret
              [sample_secret_proof "bb"; sample_secret_proof "aa"; sample_secret_proof "dd"]
              (sample_world sample_wallet)) as [[e|spent] w'] eqn:Erun;
    [vm_compute in Erun; discriminate |].
  destruct (checkProofsSpent_returns_spent sample_queries proof_secret _ _ _ _ Erun)
    as (states & Hstates & Hw & Hsub & _).
  exists spent, w', states. split; [reflexivity |].
  split; [vm_compute in Erun; injection Erun as <- _; reflexivity |]. auto.
Defined.

(* Of the three entries of the sample token, the first and the third are
   of the wallet's mint. *)
Lemma payLnInvoiceWithToken_melts_own_mint_witness :
  @getDecodedToken sample_format_decoding "cashuAsample" = Some sample_token /\
  (@None N = None \/ _seed (wallet (sample_world sample_wallet)) <> None) /\
  exists payload more,
    calls (snd (@payLnInvoiceWithToken sample_curve sample_derivation sample_entropy
                  sample_format_decoding sample_mint sample_queries "lnbc1" "cashuAsample"
                  (Some (mkMeltQuote "q1" 10 2)) None None (sample_world sample_wallet)))
      = calls (sample_world sample_wallet) ++ CallMelt payload :: more /\
    melt_quote payload = quote (mkMeltQuote "q1" 10 2) /\
    (forall p,
       In p (melt_inputs payload) <->
       exists e, In e (token sample_token) /\ entry_mint e = mintUrl sample_mint /\
                 In p (entry_proofs e)).
Proof.
  split; [reflexivity |]. split; [left; reflexivity |].
  apply (@payLnInvoiceWithToken_melts_own_mint sample_curve sample_derivation
           sample_entropy sample_format_decoding sample_mint sample_queries "lnbc1"
           "cashuAsample" sample_token (mkMeltQuote "q1" 10 2) None None
           (sample_world sample_wallet)); [reflexivity | left; reflexivity].
Defined.

Lemma send_denominations_witness :
  signs_as_requested sample_mint /\
  exists result w',
    send sample_mint 9 [sample_proof 2; sample_proof 2] (Some [mkPreference 1 2;
      mkPreference 2 1]) None (sample_world sample_wallet) = (inr result, w') /\
    List.map proof_amount (send_proofs result)
      = expand_preference [mkPreference 1 2; mkPreference 2 1] /\
    expand_preference [mkPreference 1 2; mkPreference 2 1] = [1; 1; 2].
Proof.
  split; [exact sample_mint_signs_as_requested |].
  destruct (send sample_mint 9 [sample_proof 2; sample_proof 2]
              (Some [mkPreference 1 2; mkPreference 2 1]) None
              (sample_world sample_wallet)) as [[e|result] w'] eqn:Erun;
    [vm_compute in Erun; discriminate |].
  exists result, w'. split; [reflexivity |]. split; [|reflexivity].
  exact (send_denominations sample_mint 9 [sample_proof 2; sample_proof 2]
           (Some [mkPreference 1 2; mkPreference 2 1]) None (sample_world sample_wallet)
           w' result sample_mint_signs_as_requested Erun).
Defined.

Lemma receiveTokenEntry_preserves_value_witness :
  static_split_signs_as_requested sample_mint /\
  exists proofs bad w',
    receiveTokenEntry_try sample_mint
      (mkTokenEntry "https://mint.example" [sample_proof 4; sample_proof 2; sample_proof 1])
      None None (sample_world sample_wallet) = (inr (proofs, bad), w') /\
    total_amount proofs
      = total_amount
          (entry_proofs
             (mkTokenEntry "https://mint.example"
                [sample_proof 4; sample_proof 2; sample_proof 1])).
Proof.
  split; [exact sample_mint_static_split_signs_as_requested |].
  destruct (receiveTokenEntry_try sample_mint
              (mkTokenEntry "https://mint.example"
                 [sample_proof 4; sample_proof 2; sample_proof 1])
              None None (sample_world sample_wallet)) as [[e|[proofs bad]] w'] eqn:Erun;
    [vm_compute in Erun; discriminate |].
  exists proofs, bad, w'. split; [reflexivity |].
  exact (receiveTokenEntry_preserves_value sample_mint _ None None
           (sample_world sample_wallet) w' proofs bad
           sample_mint_static_split_signs_as_requested Erun).
Defined.
